(** * NeuralFlow: a shallow embedding of [neuralflow.h]

    The header defines a small workflow engine: nodes with a
    prepare / execute / post-process lifecycle ([BaseNode]), a retry and
    fallback engine ([Node]), a per-item variant ([BatchNode]), a graph
    walker ([Flow]) and a per-parameter-set variant ([BatchFlow]).

    Modelling conventions.
    - [std::map<std::string, T>] is a [gmap string T].
    - [std::shared_ptr<IBaseNode>] is an [option node_ref]: [None] is
      [nullptr], [Some n] names a live object of the node store.
    - [int] and [long long] are [Z]; the engine only compares them and adds
      one to [currentRetry], which stays below [maxRetries] unless user
      code assigns it (an overflow of [++currentRetry] forced that way is
      undefined in C++ and not modelled).
    - C++ exceptions are values of [thrown]; a computation is a function
      from a state to a [result], the new state and the sequence of
      calls it made to user code and to [sleep_for].
    - User-supplied virtual methods ([exec], [execFallback], [execItem],
      [prepBatch], ...) are section variables.  The methods of a node
      work on the node's own fields too: [maxRetries], [waitMillis] and
      [currentRetry] are protected members, which they may assign.
    - Loops whose number of iterations user code decides ([while] in
      [orchestrate], the retry [for]) take a bound [fuel] and give
      [Diverge] when it is used up.
    - [logWarn] only writes to [std::cerr] and is left out. *)

From stdpp Require Import gmap strings list fin_maps functions pretty.

Local Open Scope string_scope.
Local Open Scope Z_scope.
Local Open Scope list_scope.

(** ** Dynamically typed values and exceptions *)

(** [std::any]: the values stored in [Context] and [Params]. *)
Inductive any : Type :=
| AnyEmpty
| AnyInt (z : Z)
| AnyBool (b : bool)
| AnyString (s : string).

Abbreviation Context := (gmap string any).
Abbreviation Params := (gmap string any).

(** The dynamic type of an exception object derived from [std::exception]. *)
Inductive exception_class : Type :=
| std_runtime_error
| std_logic_error
| std_invalid_argument
| NeuralFlowException_class
| user_exception_class (name : string).

(** An object caught by [catch (const std::exception&)]: its dynamic type,
    the text returned by [what()], and whatever else the derived class
    carries. *)
Record std_exception : Type := mk_exception {
  dynamic_type : exception_class;
  what : string;
  payload : list any
}.

(** Anything a [throw] can raise; [NonStandard] is only caught by
    [catch (...)]. *)
Inductive thrown : Type :=
| StdException (e : std_exception)
| NonStandard (v : any).

Definition runtime_error (msg : string) : std_exception :=
  mk_exception std_runtime_error msg [].

Definition logic_error (msg : string) : std_exception :=
  mk_exception std_logic_error msg [].

Definition invalid_argument (msg : string) : std_exception :=
  mk_exception std_invalid_argument msg [].

(** [NeuralFlowException(const std::string& message)] *)
Definition NeuralFlowException (message : string) : std_exception :=
  mk_exception NeuralFlowException_class message [].

(** [NeuralFlowException(const std::string& message, const std::exception& cause)] *)
Definition NeuralFlowException_cause (message : string) (cause : std_exception)
  : std_exception :=
  mk_exception NeuralFlowException_class
    (message +:+ " (Caused by: " +:+ what cause +:+ ")") [].

(** ** Computations: state, exceptions and a record of calls *)

Inductive result (A : Type) : Type :=
| Ok (a : A)
| Throw (t : thrown)
| Diverge.
Arguments Ok {A} a.
Arguments Throw {A} t.
Arguments Diverge {A}.

(** A user-supplied method acting on a state [S]. *)
Definition hook (S A : Type) : Type := S → result A * S.

(** Engine code: like [hook], and it also yields the calls it made. *)
Definition Eff (Ev S A : Type) : Type := S → result A * S * list Ev.

Section Eff.
Context {Ev S : Type}.

#[global] Instance Eff_ret : MRet (Eff Ev S) :=
  λ A a s, (Ok a, s, []).

#[global] Instance Eff_bind : MBind (Eff Ev S) :=
  λ A B k m s,
    match m s with
    | (Ok a, s1, l1) => let '(r, s2, l2) := k a s1 in (r, s2, l1 ++ l2)
    | (Throw t, s1, l1) => (Throw t, s1, l1)
    | (Diverge, s1, l1) => (Diverge, s1, l1)
    end.

Definition throw {A} (e : std_exception) : Eff Ev S A :=
  λ s, (Throw (StdException e), s, []).

Definition diverge {A} : Eff Ev S A :=
  λ s, (Diverge, s, []).

(** [try { body } catch (const std::exception& e) { on_std e }
     catch (...) { on_other }].  State changes made by [body] before it
    threw are kept. *)
Definition try_catch {A} (body : Eff Ev S A)
    (on_std : std_exception → Eff Ev S A) (on_other : Eff Ev S A) : Eff Ev S A :=
  λ s,
    match body s with
    | (Ok a, s1, l1) => (Ok a, s1, l1)
    | (Throw (StdException e), s1, l1) =>
        let '(r, s2, l2) := on_std e s1 in (r, s2, l1 ++ l2)
    | (Throw (NonStandard _), s1, l1) =>
        let '(r, s2, l2) := on_other s1 in (r, s2, l1 ++ l2)
    | (Diverge, s1, l1) => (Diverge, s1, l1)
    end.

Definition get_state : Eff Ev S S :=
  λ s, (Ok s, s, []).

Definition modify_state (f : S → S) : Eff Ev S unit :=
  λ s, (Ok tt, f s, []).

(** Record the call [ev], then run the user method [h]. *)
Definition invoke {A} (ev : Ev) (h : hook S A) : Eff Ev S A :=
  λ s, let '(r, s1) := h s in (r, s1, [ev]).

End Eff.

(** ** BaseNode: params and the successor table *)

Definition node_ref : Type := positive.

Record BaseNode : Type := mkBaseNode {
  params : Params;
  successors : gmap string node_ref
}.

(** [void setParamsInternal(const Params& newParams) { params = newParams; }] *)
Definition setParamsInternal (newParams : Params) (this : BaseNode)
  : BaseNode :=
  {| params := newParams; successors := successors this |}.

Definition getParams (this : BaseNode) : Params := params this.

(** [next(node, action)]: rejects [nullptr], else [successors[action] = node]
    and returns [node]. *)
Definition next (node : option node_ref) (action : string) (this : BaseNode)
  : result node_ref * BaseNode :=
  match node with
  | None =>
      (Throw (StdException (invalid_argument "Successor node cannot be null")), this)
  | Some n =>
      (Ok n, {| params := params this;
                successors := <[action := n]> (successors this) |})
  end.

(** [next(node)] is [next(node, "")]. *)
Definition next_default (node : option node_ref) (this : BaseNode)
  : result node_ref * BaseNode :=
  next node "" this.

(** [getNextNode(action)]: [action.value_or("")] is looked up in
    [successors]; a miss returns [nullptr]. *)
Definition getNextNode (action : option string) (this : BaseNode)
  : option node_ref :=
  let actionKey := default "" action in
  match successors this !! actionKey with
  | Some target => Some target
  | None => None
  end.


(** ** Node: construction *)

Record Node : Type := mkNode {
  maxRetries : Z;
  waitMillis : Z;
  currentRetry : Z
}.

(** [Node(int retries = 1, long long waitMilliseconds = 0)] *)
Definition Node_new (retries waitMilliseconds : Z) : result Node :=
  if retries <? 1 then
    Throw (StdException (invalid_argument "maxRetries must be at least 1"))
  else if waitMilliseconds <? 0 then
    Throw (StdException (invalid_argument "waitMillis cannot be negative"))
  else
    Ok {| maxRetries := retries; waitMillis := waitMilliseconds; currentRetry := 0 |}.

Definition set_currentRetry (i : Z) (this : Node) : Node :=
  {| maxRetries := maxRetries this; waitMillis := waitMillis this; currentRetry := i |}.

(** ** Node: the retry and fallback engine *)

(** What the engine does that a caller can observe: calls of the user's
    [exec] / [execItem], calls of [std::this_thread::sleep_for], and calls
    of the user's fallback with the exception object handed to it. *)
Inductive call (A : Type) : Type :=
| Exec (a : A)
| Sleep (ms : Z)
| Fallback (a : A) (e : std_exception).
Arguments Exec {A} a.
Arguments Sleep {A} ms.
Arguments Fallback {A} a e.

(** The state the engine runs on: the [Node] fields of [*this] and
    everything else user code can reach ([U]: members of the subclass, its
    params, the outside world). *)
Record machine (U : Type) : Type := mkMachine {
  self : Node;
  user : U
}.
Arguments mkMachine {U} self user.
Arguments self {U} m.
Arguments user {U} m.

(** A user-supplied member function of a node.  It works on the whole
    state: the [Node] fields are protected members of its own class,
    which it may read and assign like the rest. *)
Definition method (U A : Type) : Type := hook (machine U) A.

(** Record the call, then run the user method. *)
Definition call_method {U Arg A} (ev : call Arg) (m : method U A)
  : Eff (call Arg) (machine U) A :=
  λ s, let '(r, s1) := m s in (r, s1, [ev]).

(** [std::this_thread::sleep_for(std::chrono::milliseconds(ms))] *)
Definition sleep_for {U Arg} (ms : Z) : Eff (call Arg) (machine U) unit :=
  λ s, (Ok tt, s, [Sleep ms]).

(** [currentRetry < maxRetries - 1 && waitMillis > 0] *)
Definition another_attempt_and_wait (this : Node) : bool :=
  (currentRetry this <? maxRetries this - 1) && (0 <? waitMillis this).

(** [++currentRetry] *)
Definition increment_currentRetry {U} (s : machine U) : machine U :=
  {| self := set_currentRetry (currentRetry (self s) + 1) (self s);
     user := user s |}.

(** [for (...; currentRetry < maxRetries; ++currentRetry) body], from the
    test of the condition on: the condition is read from the fields as
    they are at that moment.  [body] either leaves the loop with a value
    ([inl]: a [return], or a [break] after an assignment) or ends having
    stored an exception ([inr]).  User code can keep the condition true
    for ever, so the iterations are bounded by [fuel]. *)
Fixpoint for_retries_from {U Arg A} (fuel : nat)
    (body : Eff (call Arg) (machine U) (A + std_exception))
    (lastExceptionPtr : option std_exception)
  : Eff (call Arg) (machine U) (A + option std_exception) :=
  λ s,
    if currentRetry (self s) <? maxRetries (self s) then
      match fuel with
      | O => (Diverge, s, [])
      | S fuel' =>
          (r ← body;
           match r with
           | inl v => mret (inl v)
           | inr e =>
               modify_state increment_currentRetry;;
               for_retries_from fuel' body (Some e)
           end) s
      end
    else (Ok (inr lastExceptionPtr), s, []).

(** [currentRetry = 0] *)
Definition reset_currentRetry {U} (s : machine U) : machine U :=
  {| self := set_currentRetry 0 (self s); user := user s |}.

(** [for (currentRetry = 0; currentRetry < maxRetries; ++currentRetry) body] *)
Definition for_retries {U Arg A} (fuel : nat)
    (body : Eff (call Arg) (machine U) (A + std_exception))
  : Eff (call Arg) (machine U) (A + option std_exception) :=
  modify_state reset_currentRetry;;
  for_retries_from fuel body None.

(** The default [Node::execFallback]: re-throws the last exception wrapped. *)
Definition Node_execFallback_default {U P E}
    (prepResult : P) (lastException : std_exception) : method U E :=
  λ s,
    (Throw (StdException (NeuralFlowException_cause
       ("Node execution failed after " +:+ pretty (maxRetries (self s)) +:+
        " retries, and fallback was not implemented or also failed.")
       lastException)), s).

Section Node.
Context {U P E : Type}.
Variable exec : P → method U E.
Variable execFallback : P → std_exception → method U E.

(** One pass through the body of the retry loop of [Node::internalExec]. *)
Definition Node_attempt (prepResult : P)
  : Eff (call P) (machine U) (E + std_exception) :=
  try_catch
    (r ← call_method (Exec prepResult) (exec prepResult); mret (inl r))
    (λ current_e,
       let lastException := runtime_error (what current_e) in
       s ← get_state;
       (if another_attempt_and_wait (self s) then
          try_catch (sleep_for (waitMillis (self s)))
            (λ _, throw (NeuralFlowException_cause "Thread interrupted during retry wait"
                           (runtime_error "sleep interrupted")))
            (throw (NeuralFlowException_cause "Thread interrupted during retry wait"
                           (runtime_error "sleep interrupted")))
        else mret tt);;
       mret (inr lastException))
    (let lastException := runtime_error "Non-standard exception caught during exec" in
     s ← get_state;
     (if another_attempt_and_wait (self s) then sleep_for (waitMillis (self s))
      else mret tt);;
     mret (inr lastException)).

(** [E Node::internalExec(P prepResult)] *)
Definition Node_internalExec (fuel : nat) (prepResult : P)
  : Eff (call P) (machine U) E :=
  r ← for_retries fuel (Node_attempt prepResult);
  match r with
  | inl v => mret v
  | inr lastExceptionPtr =>
      try_catch
        (match lastExceptionPtr with
         | None =>
             throw (NeuralFlowException
                      "Execution failed after retries, but no exception was captured.")
         | Some lastException =>
             call_method (Fallback prepResult lastException)
                         (execFallback prepResult lastException)
         end)
        (λ fallbackException,
           throw (NeuralFlowException_cause
                    "Fallback execution failed after main exec retries failed."
                    fallbackException))
        (throw (NeuralFlowException_cause
                  "Fallback execution failed with non-standard exception."
                  (runtime_error "Unknown fallback error")))
  end.

End Node.

(** ** BatchNode *)

(** The default [BatchNode::execItemFallback]. *)
Definition BatchNode_execItemFallback_default {U IN_ITEM OUT_ITEM}
    (item : IN_ITEM) (lastException : std_exception) : method U OUT_ITEM :=
  λ s,
    (Throw (StdException (NeuralFlowException_cause
       "Batch item execution failed after retries, and fallback was not implemented or also failed."
       lastException)), s).

Section BatchNode.
Context {U IN_ITEM OUT_ITEM : Type}.
Variable execItem : IN_ITEM → method U OUT_ITEM.
Variable execItemFallback : IN_ITEM → std_exception → method U OUT_ITEM.

(** One pass through the body of the per-item retry loop. *)
Definition BatchNode_attempt (item : IN_ITEM)
  : Eff (call IN_ITEM) (machine U) (OUT_ITEM + std_exception) :=
  try_catch
    (itemResult ← call_method (Exec item) (execItem item); mret (inl itemResult))
    (λ current_e,
       let lastItemException := runtime_error (what current_e) in
       s ← get_state;
       (if another_attempt_and_wait (self s) then sleep_for (waitMillis (self s))
        else mret tt);;
       mret (inr lastItemException))
    (let lastItemException := runtime_error "Non-standard exception during execItem" in
     s ← get_state;
     (if another_attempt_and_wait (self s) then sleep_for (waitMillis (self s))
      else mret tt);;
     mret (inr lastItemException)).

(** The body of [for (const auto& item : batchPrepResult)], up to the
    [push_back]: the value it yields is the one pushed.  The
    default-constructed [itemResult] is always overwritten before it is
    pushed, so it does not appear. *)
Definition BatchNode_item (fuel : nat) (item : IN_ITEM)
  : Eff (call IN_ITEM) (machine U) OUT_ITEM :=
  r ← for_retries fuel (BatchNode_attempt item);
  match r with
  | inl itemResult => mret itemResult
  | inr lastItemExceptionPtr =>
      try_catch
        (match lastItemExceptionPtr with
         | None =>
             throw (NeuralFlowException
                      "Item execution failed without exception for item.")
         | Some lastItemException =>
             call_method (Fallback item lastItemException)
                         (execItemFallback item lastItemException)
         end)
        (λ fallbackEx,
           throw (NeuralFlowException_cause "Item fallback execution failed." fallbackEx))
        (throw (NeuralFlowException_cause
                  "Item fallback failed with non-standard exception."
                  (runtime_error "Unknown item fallback error")))
  end.

Fixpoint BatchNode_items (fuel : nat) (items : list IN_ITEM) (results : list OUT_ITEM)
  : Eff (call IN_ITEM) (machine U) (list OUT_ITEM) :=
  match items with
  | [] => mret results
  | item :: rest =>
      itemResult ← BatchNode_item fuel item;
      BatchNode_items fuel rest (results ++ [itemResult])
  end.

(** [std::vector<OUT_ITEM> BatchNode::internalExec(std::vector<IN_ITEM>)];
    [fuel] bounds the retry loop of each item. *)
Definition BatchNode_internalExec (fuel : nat) (batchPrepResult : list IN_ITEM)
  : Eff (call IN_ITEM) (machine U) (list OUT_ITEM) :=
  match batchPrepResult with
  | [] => mret []
  | _ => BatchNode_items fuel batchPrepResult []
  end.

End BatchNode.

(** ** Flow *)

(** [m.insert(first, last)] on a [std::map]: every element of the range is
    inserted unless the map already holds its key. *)
Definition map_insert_range (range : Params) (m : Params)
  : Params :=
  map_fold (λ key value acc,
              match acc !! key with
              | Some _ => acc
              | None => <[key := value]> acc
              end) m range.

(** The objects a traversal works on: the shared [Context], the node
    objects behind the [shared_ptr]s, and the rest of the program state. *)
Record world (U : Type) : Type := mkWorld {
  sharedContext : Context;
  nodes : node_ref → BaseNode;
  outside : U
}.
Arguments mkWorld {U} sharedContext nodes outside.
Arguments sharedContext {U} w.
Arguments nodes {U} w.
Arguments outside {U} w.

(** Calls made by [Flow] and [BatchFlow].  [InternalRun n seen] records
    the params node [n] holds at the moment its [internalRun] starts. *)
Inductive flow_call : Type :=
| Orchestrate (initialParams : Params)
| SetParamsInternal (n : node_ref) (newParams : Params)
| InternalRun (n : node_ref) (seen : Params)
| PrepBatch
| PostBatch (batchPrepResult : list (Params)).

(** The [Flow] object itself: its [BaseNode] part and [startNode].  It is
    passed to the methods below as a value: the nodes a flow runs do not
    reassign the flow's own fields. *)
Record Flow : Type := mkFlow {
  base : BaseNode;
  startNode : option node_ref
}.

(** [Flow::start(node)] *)
Definition Flow_start (node : option node_ref) (this : Flow) : result node_ref * Flow :=
  match node with
  | None => (Throw (StdException (invalid_argument "Start node cannot be null")), this)
  | Some n => (Ok n, {| base := base this; startNode := Some n |})
  end.

(** [Flow::exec(std::nullptr_t)] *)
Definition Flow_exec {Ev S} (prepResult : unit) : Eff Ev S (option string) :=
  throw (logic_error
    "Flow::exec() is internal and should not be called directly. Use run().").

(** [Flow::post(sharedContext, prepResult, execResult)] *)
Definition Flow_post {Ev S} (prepResult : unit) (execResult : option string)
  : Eff Ev S (option string) :=
  mret execResult.

(** [BatchFlow::post(sharedContext, prepResult, execResult)] *)
Definition BatchFlow_post {Ev S} (prepResult : unit) (execResult : option string)
  : Eff Ev S (option string) :=
  throw (logic_error "Use postBatch for BatchFlow, not post.").

Section Flow.
Context {U : Type}.

(** [IBaseNode::internalRun], resolved by the dynamic type of node [n]. *)
Variable internalRun : node_ref → hook (world U) (option string).

(** [currentNode->setParamsInternal(ps)] *)
Definition node_setParamsInternal (n : node_ref) (ps : Params)
  : Eff flow_call (world U) unit :=
  λ w, (Ok tt,
        {| sharedContext := sharedContext w;
           nodes := <[n := setParamsInternal ps (nodes w n)]> (nodes w);
           outside := outside w |},
        [SetParamsInternal n ps]).

(** [currentNode->internalRun(sharedContext)] *)
Definition node_internalRun (n : node_ref) : Eff flow_call (world U) (option string) :=
  λ w, invoke (InternalRun n (getParams (nodes w n))) (internalRun n) w.

(** [currentNode->getNextNode(lastAction)] *)
Definition node_getNextNode (n : node_ref) (action : option string)
  : Eff flow_call (world U) (option node_ref) :=
  λ w, (Ok (getNextNode action (nodes w n)), w, []).

(** [while (currentNode != nullptr) { ... }]: the loop has no bound of its
    own, [fuel] bounds the number of nodes visited. *)
Fixpoint orchestrate_loop (fuel : nat) (currentRunParams : Params)
    (currentNode : option node_ref) (lastAction : option string)
  : Eff flow_call (world U) (option string) :=
  match currentNode with
  | None => mret lastAction
  | Some n =>
      match fuel with
      | O => diverge
      | S fuel' =>
          node_setParamsInternal n currentRunParams;;
          lastAction' ← node_internalRun n;
          nextNode ← node_getNextNode n lastAction';
          orchestrate_loop fuel' currentRunParams nextNode lastAction'
      end
  end.

(** [Flow::orchestrate(sharedContext, initialParams)] *)
Definition Flow_orchestrate (fuel : nat) (this : Flow) (initialParams : Params)
  : Eff flow_call (world U) (option string) :=
  λ w,
    match startNode this with
    | None => (Ok None, w, [Orchestrate initialParams])
    | Some _ =>
        let currentRunParams := map_insert_range initialParams (params (base this)) in
        let '(r, w', l) := orchestrate_loop fuel currentRunParams (startNode this) None w in
        (r, w', Orchestrate initialParams :: l)
    end.

(** [Flow::internalRun(sharedContext)]; [prep] is the virtual
    [BaseNode::prep], whose result is ignored. *)
Definition Flow_internalRun (prep : hook (world U) unit) (fuel : nat) (this : Flow)
  : Eff flow_call (world U) (option string) :=
  λ w,
    match prep w with
    | (Ok prepRes, w1) =>
        (orchRes ← Flow_orchestrate fuel this ∅; Flow_post tt orchRes) w1
    | (Throw t, w1) => (Throw t, w1, [])
    | (Diverge, w1) => (Diverge, w1, [])
    end.

(** ** BatchFlow *)

Variable prepBatch : hook (world U) (list (Params)).
Variable postBatch : list (Params) → hook (world U) (option string).

(** [for (const auto& batchParams : batchParamsList) orchestrate(...)] *)
Fixpoint BatchFlow_each (fuel : nat) (this : Flow)
    (batchParamsList : list (Params))
  : Eff flow_call (world U) unit :=
  match batchParamsList with
  | [] => mret tt
  | batchParams :: rest =>
      Flow_orchestrate fuel this batchParams;;
      BatchFlow_each fuel this rest
  end.

(** [BatchFlow::internalRun(sharedContext)] *)
Definition BatchFlow_internalRun (fuel : nat) (this : Flow)
  : Eff flow_call (world U) (option string) :=
  batchParamsList ← invoke PrepBatch prepBatch;
  BatchFlow_each fuel this batchParamsList;;
  invoke (PostBatch batchParamsList) (postBatch batchParamsList).

End Flow.

(** ** Vocabulary of the statements about flows *)

(** The event is a push of [ps] into a node, or the start of a node's
    [internalRun] with the node holding [ps]. *)
Definition carries (ps : Params) (ev : flow_call) : Prop :=
  match ev with
  | SetParamsInternal _ newParams => newParams = ps
  | InternalRun _ seen => seen = ps
  | _ => True
  end.

(** The calls of [prepBatch], [orchestrate] and [postBatch] in a record,
    in the order they were made. *)
Fixpoint outline (l : list flow_call) : list flow_call :=
  match l with
  | [] => []
  | SetParamsInternal _ _ :: l' => outline l'
  | InternalRun _ _ :: l' => outline l'
  | ev :: l' => ev :: outline l'
  end.

(** [sub_runs run pl w w']: run from [w] one after the other on the
    parameter sets of [pl], every [run] returns normally, and the last one
    leaves the world [w']. *)
Inductive sub_runs {U : Type}
    (run : Params → Eff flow_call (world U) (option string))
  : list (Params) → world U → world U → Prop :=
| sub_runs_nil w : sub_runs run [] w w
| sub_runs_cons ps pl w action w1 l w2 :
    run ps w = (Ok action, w1, l) →
    sub_runs run pl w1 w2 →
    sub_runs run (ps :: pl) w w2.

(** ** Vocabulary of the statements about retries *)

(** A user method leaves the [Node] fields ([maxRetries], [waitMillis],
    [currentRetry]) as it found them, whatever else it changes and
    whatever it returns or throws. *)
Definition keeps_fields {U A : Type} (f : method U A) : Prop :=
  ∀ s, self (f s).2 = self s.

(** [failed_attempts f s ts s']: from the state [s] on, consecutive calls
    of [f], each followed by [++currentRetry], all throw; [ts] lists what
    they threw, in order, and [s'] is the state after the last
    [++currentRetry]. *)
Inductive failed_attempts {U A : Type} (f : method U A)
  : machine U → list thrown → machine U → Prop :=
| failed_attempts_nil s : failed_attempts f s [] s
| failed_attempts_cons s t s1 ts s' :
    f s = (Throw t, s1) →
    failed_attempts f (increment_currentRetry s1) ts s' →
    failed_attempts f s (t :: ts) s'.

(** The text a handler keeps of what it caught: [what()] of a
    [std::exception], a fixed text for anything else. *)
Definition message_of (placeholder : string) (t : thrown) : string :=
  match t with
  | StdException e => what e
  | NonStandard _ => placeholder
  end.

(** Number of calls of [exec] / [execItem] in a record. *)
Fixpoint count_exec {A} (l : list (call A)) : nat :=
  match l with
  | [] => O
  | Exec _ :: l' => S (count_exec l')
  | _ :: l' => count_exec l'
  end.

(** The fallback calls of a record, with their arguments. *)
Fixpoint fallbacks {A} (l : list (call A)) : list (A * std_exception) :=
  match l with
  | [] => []
  | Fallback a e :: l' => (a, e) :: fallbacks l'
  | _ :: l' => fallbacks l'
  end.

(** The arguments of the [sleep_for] calls of a record. *)
Fixpoint sleeps {A} (l : list (call A)) : list Z :=
  match l with
  | [] => []
  | Sleep ms :: l' => ms :: sleeps l'
  | _ :: l' => sleeps l'
  end.


(** For every call of [exec] / [execItem] in a record, the time spent in
    [sleep_for] before it, counted from [now]: the differences between
    consecutive entries are the delays between consecutive attempts. *)
Fixpoint exec_times {A} (now : Z) (l : list (call A)) : list Z :=
  match l with
  | [] => []
  | Exec _ :: l' => now :: exec_times now l'
  | Sleep ms :: l' => exec_times (now + ms) l'
  | Fallback _ _ :: l' => exec_times now l'
  end.

(** The differences between consecutive entries of a list. *)
Fixpoint differences (l : list Z) : list Z :=
  match l with
  | [] => []
  | x :: l' =>
      match l' with
      | [] => []
      | y :: _ => (y - x) :: differences l'
      end
  end.

(** The delays between consecutive attempts of a record: for each attempt
    but the first, the time spent in [sleep_for] since the attempt
    before it. *)
Definition delays {A} (l : list (call A)) : list Z := differences (exec_times 0 l).

(** What the handlers of one failed attempt add to the record. *)
Definition pause {A} (this : Node) : list (call A) :=
  if another_attempt_and_wait this then [Sleep (waitMillis this)] else [].

(** The record of [n] failed attempts starting at retry index [i]. *)
Fixpoint failed_log {A} (a : A) (R w i : Z) (n : nat) : list (call A) :=
  match n with
  | O => []
  | S n' => Exec a :: pause (mkNode R w i) ++ failed_log a R w (i + 1) n'
  end.

(** The exception object stored after the failures [ts], if the pointer
    held [stored] before them. *)
Definition stored_after (placeholder : string) (stored : option std_exception)
    (ts : list thrown) : option std_exception :=
  match last ts with
  | Some t => Some (runtime_error (message_of placeholder t))
  | None => stored
  end.

(** What one pass through a retry loop does, in terms of the user method
    [f] it calls with argument [a]; the handler reads the fields as the
    call left them. *)
Definition attempt_of {U Arg A} (placeholder : string) (a : Arg) (f : method U A)
    (body : Eff (call Arg) (machine U) (A + std_exception)) : Prop :=
  ∀ s,
    body s =
    match f s with
    | (Ok v, s1) => (Ok (inl v), s1, [Exec a])
    | (Throw t, s1) =>
        (Ok (inr (runtime_error (message_of placeholder t))),
         s1, Exec a :: pause (self s1))
    | (Diverge, s1) => (Diverge, s1, [Exec a])
    end.

(** How the outcome of a fallback reaches the caller of [internalExec]. *)
Definition escalate {A} (on_std on_other unknown : string) (r : result A) : result A :=
  match r with
  | Ok v => Ok v
  | Throw (StdException e) =>
      Throw (StdException (NeuralFlowException_cause on_std e))
  | Throw (NonStandard _) =>
      Throw (StdException (NeuralFlowException_cause on_other (runtime_error unknown)))
  | Diverge => Diverge
  end.

(** [out] is a value some call of [execItem item] or of
    [execItemFallback item] returned. *)
Definition produced_by {U IN_ITEM OUT_ITEM : Type}
    (execItem : IN_ITEM → method U OUT_ITEM)
    (execItemFallback : IN_ITEM → std_exception → method U OUT_ITEM)
    (item : IN_ITEM) (out : OUT_ITEM) : Prop :=
  (∃ s s', execItem item s = (Ok out, s'))
  ∨ (∃ e s s', execItemFallback item e s = (Ok out, s')).

(** An exception object of dynamic type [std::runtime_error] that carries
    a message and nothing else. *)
Definition plain_runtime_error (e : std_exception) : Prop :=
  dynamic_type e = std_runtime_error ∧ payload e = [].

(** [this'] has the [maxRetries] and the [waitMillis] of [this]. *)
Definition same_config (this this' : Node) : Prop :=
  maxRetries this' = maxRetries this ∧ waitMillis this' = waitMillis this.

(** What [execItem] and [execItemFallback] do for one item of a batch on
    a node with [maxRetries = R], from the state [s] on: either some
    attempt among the first [R] returns [out], the ones before it having
    thrown, or all [R] attempts throw and the fallback, given the message
    of the last failure, returns [out].  [s'] is the state after the call
    that returned. *)
Definition item_done {U IN_ITEM OUT_ITEM : Type}
    (execItem : IN_ITEM → method U OUT_ITEM)
    (execItemFallback : IN_ITEM → std_exception → method U OUT_ITEM)
    (R : Z) (item : IN_ITEM) (s : machine U) (out : OUT_ITEM) (s' : machine U)
  : Prop :=
  (∃ ts s1,
     failed_attempts (execItem item) (reset_currentRetry s) ts s1
     ∧ Z.of_nat (length ts) < R
     ∧ execItem item s1 = (Ok out, s'))
  ∨ (∃ ts t s1,
       failed_attempts (execItem item) (reset_currentRetry s) (ts ++ [t]) s1
       ∧ length (ts ++ [t]) = Z.to_nat R
       ∧ execItemFallback item
           (runtime_error (message_of "Non-standard exception during execItem" t))
           s1 = (Ok out, s')).

(** The same for the items of a sequence, one after the other. *)
Inductive items_done {U IN_ITEM OUT_ITEM : Type}
    (execItem : IN_ITEM → method U OUT_ITEM)
    (execItemFallback : IN_ITEM → std_exception → method U OUT_ITEM)
    (R : Z)
  : list IN_ITEM → machine U → list OUT_ITEM → machine U → Prop :=
| items_done_nil s : items_done execItem execItemFallback R [] s [] s
| items_done_cons item items s out s1 outs s' :
    item_done execItem execItemFallback R item s out s1 →
    items_done execItem execItemFallback R items s1 outs s' →
    items_done execItem execItemFallback R (item :: items) s (out :: outs) s'.

(** A call made for the argument [x] on a node with [waitMillis = w]:
    a call of the user's method or fallback on [x], or a [sleep_for] of
    [w > 0] milliseconds. *)
Definition made_for {A : Type} (w : Z) (x : A) (c : call A) : Prop :=
  match c with
  | Exec a => a = x
  | Fallback a _ => a = x
  | Sleep ms => ms = w ∧ 0 < ms
  end.

(** The part of a record made for one argument [x] (the input of a
    [Node], one item of a batch) on a node with [maxRetries = R] and
    [waitMillis = w]: every call in it is made for [x]; there are at most
    [R] calls of [exec] / [execItem] and at most one of the fallback,
    which then comes last and after exactly [R] calls of [exec] /
    [execItem]; [sleep_for] is called at most [R - 1] times. *)
Definition item_segment {A : Type} (R w : Z) (x : A) (seg : list (call A)) : Prop :=
  Forall (made_for w x) seg
  ∧ (count_exec seg ≤ Z.to_nat R)%nat
  ∧ (length (fallbacks seg) ≤ 1)%nat
  ∧ (fallbacks seg ≠ [] →
       ∃ before e, seg = before ++ [Fallback x e]
                   ∧ fallbacks before = []
                   ∧ count_exec before = Z.to_nat R)
  ∧ (length (sleeps seg) ≤ Z.to_nat (R - 1))%nat.
(** ** Concrete nodes, methods and flows used in the examples below *)

Definition first_target : node_ref := 7%positive.
Definition second_target : node_ref := 8%positive.

(** A node whose [internalRun] does nothing and returns no action. *)
Definition quiet_node : node_ref → hook (world unit) (option string) :=
  λ _ w, (Ok None, w).

Definition start_ref : node_ref := 1%positive.

(** A flow with the standing param ["k" ↦ 1], started at [start_ref]. *)
Definition flow_k1 : Flow :=
  {| base := mkBaseNode {[ "k" := AnyInt 1 ]} ∅; startNode := Some start_ref |}.

(** A flow without params of its own, started at [start_ref]. *)
Definition flow_plain : Flow :=
  {| base := mkBaseNode ∅ ∅; startNode := Some start_ref |}.

(** Every node has the standing param ["a" ↦ 1] and no successor. *)
Definition world_a1 : world unit :=
  {| sharedContext := ∅;
     nodes := λ _, mkBaseNode {[ "a" := AnyInt 1 ]} ∅;
     outside := tt |}.

(** A [prepBatch] producing two parameter sets, and a [postBatch] that
    reports how many it was given. *)
Definition prepBatch_two : hook (world unit) (list (Params)) :=
  λ w, (Ok [ {[ "k" := AnyInt 2 ]}; {[ "j" := AnyInt 3 ]} ], w).

Definition prepBatch_none : hook (world unit) (list (Params)) :=
  λ w, (Ok [], w).

Definition postBatch_count (batchPrepResult : list (Params))
  : hook (world unit) (option string) :=
  λ w, (Ok (Some (pretty (Z.of_nat (length batchPrepResult)))), w).

(** A user-defined exception class with a payload. *)
Definition Timeout (n : nat) : std_exception :=
  mk_exception (user_exception_class "Timeout") "timed out" [AnyInt (Z.of_nat n)].

(** An [exec] that throws [Timeout] on its first [k] calls and doubles its
    input afterwards; the user state counts the calls. *)
Definition exec_flaky (k : nat) (prepResult : Z) : method nat Z :=
  λ s,
    if (user s <? k)%nat
    then (Throw (StdException (Timeout (user s))), mkMachine (self s) (S (user s)))
    else (Ok (2 * prepResult), mkMachine (self s) (S (user s))).

Definition execFallback_minus_one (prepResult : Z) (lastException : std_exception)
  : method nat Z :=
  λ s, (Ok (-1), s).

(** An [execItem] that throws a non-standard object on odd items and
    multiplies even items by ten. *)
Definition execItem_even (item : Z) : method nat Z :=
  λ s,
    if Z.odd item
    then (Throw (NonStandard (AnyInt item)), mkMachine (self s) (S (user s)))
    else (Ok (10 * item), mkMachine (self s) (S (user s))).


(** An [exec] of a subclass that asks for the same attempt again:
    [--currentRetry; throw ...]. *)
Definition exec_steps_back (prepResult : Z) : method nat Z :=
  λ s,
    (Throw (StdException (runtime_error "once more")),
     mkMachine (set_currentRetry (currentRetry (self s) - 1) (self s)) (S (user s))).

(** ** Further members of [BaseNode] *)

(** [std::any_cast<T>] on a held value, and the construction of a
    [std::any] from a [T]: the cast succeeds exactly on values of the held
    type [T]; [None] stands for [std::bad_any_cast]. *)
Class AnyCast (T : Type) : Type := {
  to_any : T → any;
  any_cast : any → option T;
  any_cast_to_any : ∀ t, any_cast (to_any t) = Some t
}.

#[global] Instance AnyCast_int : AnyCast Z := {|
  to_any := AnyInt;
  any_cast := λ a, match a with AnyInt z => Some z | _ => None end;
  any_cast_to_any := λ _, eq_refl
|}.

#[global] Instance AnyCast_bool : AnyCast bool := {|
  to_any := AnyBool;
  any_cast := λ a, match a with AnyBool b => Some b | _ => None end;
  any_cast_to_any := λ _, eq_refl
|}.

#[global] Instance AnyCast_string : AnyCast string := {|
  to_any := AnyString;
  any_cast := λ a, match a with AnyString s => Some s | _ => None end;
  any_cast_to_any := λ _, eq_refl
|}.

(** [BaseNode& setParams(const Params& newParams)] *)
Definition setParams (newParams : Params) (this : BaseNode) : BaseNode :=
  {| params := newParams; successors := successors this |}.

(** [T getParamOrDefault(const std::string& key, T defaultValue) const]:
    a [std::bad_any_cast] is caught and answered with the default. *)
Definition getParamOrDefault {T} `{AnyCast T} (key : string) (defaultValue : T)
    (this : BaseNode) : T :=
  match params this !! key with
  | Some held =>
      match any_cast held with
      | Some value => value
      | None => defaultValue
      end
  | None => defaultValue
  end.

(** Run a user method without recording a call. *)
Definition run_method {U Arg A} (m : method U A) : Eff (call Arg) (machine U) A :=
  λ s, let '(r, s1) := m s in (r, s1, []).

Section BaseNodeRun.
Context {U P E Arg : Type}.

(** The value [std::move] leaves behind in [prepRes] when the by-value
    parameter of [internalExec] is constructed from it: the same value
    for scalars, the empty vector for a [std::vector]. *)
Variable moved_from : P → P.

Variable prep : method U P.
Variable exec : P → method U E.
Variable post : P → E → method U (option string).

(** [BaseNode::internalExec(P prepResult)]: one call of [exec]. *)
Definition BaseNode_internalExec (prepResult : P) : Eff (call P) (machine U) E :=
  call_method (Exec prepResult) (exec prepResult).

(** [BaseNode::internalRun(sharedContext)], for the [internalExec] of the
    dynamic type; the shared context is part of the user state.  [prep]
    and [post] are member functions like [exec] and can assign the
    [Node] fields as well. *)
Definition BaseNode_internalRun (internalExec : P → Eff (call Arg) (machine U) E)
  : Eff (call Arg) (machine U) (option string) :=
  prepRes ← run_method prep;
  execRes ← internalExec prepRes;
  run_method (post (moved_from prepRes) execRes).

End BaseNodeRun.

(** [BaseNode::post]'s default: no action. *)
Definition BaseNode_post_default {U P E} (prepResult : P) (execResult : E)
  : method U (option string) :=
  λ s, (Ok None, s).

(** ** Vocabulary of the further statements *)

(** The nodes whose [internalRun] a record shows, in order. *)
Fixpoint nodes_run (l : list flow_call) : list node_ref :=
  match l with
  | [] => []
  | InternalRun n _ :: l' => n :: nodes_run l'
  | _ :: l' => nodes_run l'
  end.

(** The world after [ps] has been pushed into node [n]. *)
Definition pushed {U} (n : node_ref) (ps : Params) (w : world U) : world U :=
  {| sharedContext := sharedContext w;
     nodes := <[n := setParamsInternal ps (nodes w n)]> (nodes w);
     outside := outside w |}.

(** [walk internalRun ps n w path outcome w']: starting at node [n] in
    world [w], with [ps] pushed into each node before it runs, the nodes
    of [path] run one after the other, each chosen by looking up the
    action of the one before it in that node's successors; the walk ends
    at the first node whose action has no successor ([outcome] is that
    action) or whose run throws ([outcome] is what it threw). *)
Inductive walk {U : Type} (internalRun : node_ref → hook (world U) (option string))
    (ps : Params)
  : node_ref → world U → list node_ref → result (option string) → world U → Prop :=
| walk_end n w action w1 :
    internalRun n (pushed n ps w) = (Ok action, w1) →
    getNextNode action (nodes w1 n) = None →
    walk internalRun ps n w [n] (Ok action) w1
| walk_throw n w t w1 :
    internalRun n (pushed n ps w) = (Throw t, w1) →
    walk internalRun ps n w [n] (Throw t) w1
| walk_next n w action w1 m path outcome w' :
    internalRun n (pushed n ps w) = (Ok action, w1) →
    getNextNode action (nodes w1 n) = Some m →
    walk internalRun ps m w1 path outcome w' →
    walk internalRun ps n w (n :: path) outcome w'.

(** [internalRun] of a [Node<P, E>]: the [internalExec] that
    [BaseNode::internalRun] calls is [Node::internalExec]. *)
Definition Node_internalRun {U P E} (moved_from : P → P)
    (prep : method U P) (exec : P → method U E)
    (execFallback : P → std_exception → method U E)
    (post : P → E → method U (option string)) (fuel : nat)
  : Eff (call P) (machine U) (option string) :=
  BaseNode_internalRun moved_from prep post (Node_internalExec exec execFallback fuel).

(** [internalRun] of a [BatchNode<IN_ITEM, OUT_ITEM>]: [P] is a
    [std::vector], which the move leaves empty, and [internalExec] is
    [BatchNode::internalExec]. *)
Definition BatchNode_internalRun {U IN_ITEM OUT_ITEM}
    (prep : method U (list IN_ITEM)) (execItem : IN_ITEM → method U OUT_ITEM)
    (execItemFallback : IN_ITEM → std_exception → method U OUT_ITEM)
    (post : list IN_ITEM → list OUT_ITEM → method U (option string)) (fuel : nat)
  : Eff (call IN_ITEM) (machine U) (option string) :=
  BaseNode_internalRun (λ _, []) prep post
    (BatchNode_internalExec execItem execItemFallback fuel).

(** ** Further concrete nodes, methods and flows used in examples *)

Definition second_ref : node_ref := 2%positive.

(** The start node answers ["go"], every other node answers nothing. *)
Definition chain_run : node_ref → hook (world unit) (option string) :=
  λ n w, if decide (n = start_ref) then (Ok (Some "go"), w) else (Ok None, w).

(** The start node answers ["go"], every other node throws. *)
Definition chain_then_throw : node_ref → hook (world unit) (option string) :=
  λ n w, if decide (n = start_ref) then (Ok (Some "go"), w)
         else (Throw (StdException (runtime_error "boom")), w).

(** [start_ref] leads to [second_ref] under ["go"]; nothing else is wired. *)
Definition world_chain : world unit :=
  {| sharedContext := ∅;
     nodes := λ n, if decide (n = start_ref)
                   then (next (Some second_ref) "go" (mkBaseNode ∅ ∅)).2
                   else mkBaseNode ∅ ∅;
     outside := tt |}.

(** Every node is its own default successor. *)
Definition world_loop : world unit :=
  {| sharedContext := ∅;
     nodes := λ n, (next_default (Some n) (mkBaseNode ∅ ∅)).2;
     outside := tt |}.



(** Node methods over a call counter. *)
Definition execItem_double (item : Z) : method nat Z :=
  λ s, (Ok (2 * item), s).

Definition execItemFallback_zero (item : Z) (lastException : std_exception)
  : method nat Z :=
  λ s, (Ok 0, s).

Definition prep_three_items : method nat (list Z) :=
  λ s, (Ok [1; 2; 3], s).

Definition post_input_size (prepResult : list Z) (execResult : list Z)
  : method nat (option string) :=
  λ s, (Ok (Some (pretty (Z.of_nat (length prepResult)))), s).

Definition prep_missing_entry : method nat Z :=
  λ s, (Throw (StdException (NeuralFlowException "missing entry")), s).

Definition prep_seven : method nat Z := λ s, (Ok 7, s).

Definition post_rejects (prepResult : Z) (execResult : Z) : method nat (option string) :=
  λ s, (Throw (NonStandard (AnyInt execResult)), s).

(** ** The demonstration program [main.cpp]

    [main.cpp] builds its nodes on the header ([Node<P, E>] with the
    default constructor arguments and the default fallback) and runs them
    with [Flow::run], which is [internalRun].  It includes the header as
    [cognitoflow.h] and names its exception [CognitoFlowException]; these
    are read as [neuralflow.h] and [NeuralFlowException].  Its [int] arithmetic is
    written with [Z]: signed overflow is undefined in C++, so the
    statements about these nodes assume the results in [int] range.
    Output to [std::cout] is left out. *)

Definition int_range (z : Z) : Prop := -2147483648 ≤ z ≤ 2147483647.

(** The data members the node objects add to [BaseNode]: the [Node]
    fields of every object and [ResultCaptureNode::capturedValue]. *)
Record members : Type := mkMembers {
  node_fields : node_ref → Node;
  capturedValue : node_ref → Z
}.

(** [ctx[key] = value] *)
Definition set_context (key : string) (value : any) (w : world members)
  : world members :=
  {| sharedContext := <[key := value]> (sharedContext w);
     nodes := nodes w;
     outside := outside w |}.

(** The virtual [internalRun] of the node object [n], given the
    [internalRun] of its class: it runs on the [Node] fields of [n]. *)
Definition node_object {Arg} (n : node_ref)
    (run : Eff (call Arg) (machine (world members)) (option string))
  : hook (world members) (option string) :=
  λ w,
    let '(r, s', _) := run (mkMachine (node_fields (outside w) n) w) in
    (r, {| sharedContext := sharedContext (user s');
           nodes := nodes (user s');
           outside :=
             {| node_fields := <[n := self s']> (node_fields (outside (user s')));
                capturedValue := capturedValue (outside (user s')) |} |}).

(** [BaseNode::prep]'s default: a default-constructed [P]. *)
Definition BaseNode_prep_default {U P} (default_P : P) : method U P :=
  λ s, (Ok default_P, s).

Section DemoNodes.
(** The node object the methods belong to ([this]). *)
Variable n : node_ref.

(** [SetNumberNode::exec] *)
Definition SetNumberNode_exec (number : Z) (prepResult : unit)
  : method (world members) Z :=
  λ s,
    let multiplier := getParamOrDefault "multiplier" 1 (nodes (user s) n) in
    (Ok (number * multiplier), s).

(** [SetNumberNode::post] *)
Definition SetNumberNode_post (prepResult : unit) (e : Z)
  : method (world members) (option string) :=
  λ s,
    (Ok (if 20 <? e then Some "over_20" else None),
     mkMachine (self s) (set_context "currentValue" (AnyInt e) (user s))).

(** [AddNumberNode::prep]: [ctx.at] throws [std::out_of_range] on a
    missing key and [any_cast] throws [std::bad_any_cast] on another
    type; both are answered with an exception of the library. *)
Definition AddNumberNode_prep : method (world members) Z :=
  λ s,
    match sharedContext (user s) !! "currentValue" with
    | None =>
        (Throw (StdException (NeuralFlowException
                  "Context missing 'currentValue' for AddNumberNode")), s)
    | Some held =>
        match any_cast held with
        | Some currentValue => (Ok currentValue, s)
        | None =>
            (Throw (StdException (NeuralFlowException
                      "'currentValue' in context is not an int for AddNumberNode")), s)
        end
    end.

(** [AddNumberNode::exec] *)
Definition AddNumberNode_exec (numberToAdd : Z) (currentValue : Z)
  : method (world members) Z :=
  λ s, (Ok (currentValue + numberToAdd), s).

(** [AddNumberNode::post] *)
Definition AddNumberNode_post (prepResult : Z) (e : Z)
  : method (world members) (option string) :=
  λ s, (Ok (Some "added"),
        mkMachine (self s) (set_context "currentValue" (AnyInt e) (user s))).

(** [ResultCaptureNode::prep] *)
Definition ResultCaptureNode_prep : method (world members) Z :=
  λ s,
    match sharedContext (user s) !! "currentValue" with
    | Some held =>
        match any_cast held with
        | Some currentValue => (Ok currentValue, s)
        | None => (Ok (-999), s)
        end
    | None => (Ok (-999), s)
    end.

(** [ResultCaptureNode::exec]: [capturedValue = prepResult;
    this->params["capturedValue"] = prepResult;] *)
Definition ResultCaptureNode_exec (prepResult : Z) : method (world members) unit :=
  λ s,
    let w := user s in
    (Ok tt,
     mkMachine (self s)
       {| sharedContext := sharedContext w;
          nodes := <[n := {| params := <["capturedValue" := AnyInt prepResult]>
                                         (params (nodes w n));
                             successors := successors (nodes w n) |}]> (nodes w);
          outside := {| node_fields := node_fields (outside w);
                        capturedValue := <[n := prepResult]> (capturedValue (outside w)) |}
       |}).

End DemoNodes.

(** The classes of [main.cpp]'s branching and linear tests. *)
Inductive demo_class : Type :=
| SetNumberNode (number : Z)
| AddNumberNode (numberToAdd : Z)
| ResultCaptureNode.

(** [internalRun] of an object of class [c] at [n].  The nodes are built
    with [Node()], that is [maxRetries = 1], and no method of these
    classes assigns a [Node] field: the retry loop gets the bound 1. *)
Definition demo_internalRun (class_of : node_ref → demo_class) (n : node_ref)
  : hook (world members) (option string) :=
  match class_of n with
  | SetNumberNode number =>
      node_object n
        (Node_internalRun id (BaseNode_prep_default tt) (SetNumberNode_exec n number)
                          Node_execFallback_default SetNumberNode_post 1)
  | AddNumberNode numberToAdd =>
      node_object n
        (Node_internalRun id AddNumberNode_prep (AddNumberNode_exec numberToAdd)
                          Node_execFallback_default AddNumberNode_post 1)
  | ResultCaptureNode =>
      node_object n
        (Node_internalRun id ResultCaptureNode_prep (ResultCaptureNode_exec n)
                          Node_execFallback_default BaseNode_post_default 1)
  end.

(** [node->next(target, label)] on the object [n] of a world. *)
Definition wire (n target : node_ref) (label : string) (w : world members)
  : world members :=
  {| sharedContext := sharedContext w;
     nodes := <[n := (next (Some target) label (nodes w n)).2]> (nodes w);
     outside := outside w |}.

Definition setNum : node_ref := 1%positive.
Definition addNum : node_ref := 2%positive.
Definition captureDefault : node_ref := 3%positive.
Definition captureOver20 : node_ref := 4%positive.

Definition branching_classes (number numberToAdd : Z) (n : node_ref) : demo_class :=
  if decide (n = setNum) then SetNumberNode number
  else if decide (n = addNum) then AddNumberNode numberToAdd
  else ResultCaptureNode.

(** Freshly constructed nodes ([Node()] gives [maxRetries = 1],
    [waitMillis = 0]; [capturedValue = -999]) and an empty context. *)
Definition fresh_world : world members :=
  {| sharedContext := ∅;
     nodes := λ _, mkBaseNode ∅ ∅;
     outside := {| node_fields := λ _, mkNode 1 0 0; capturedValue := λ _, -999 |} |}.

(** The wiring of the branching test:
    [setNumBranch->next(addNumBranch);
     setNumBranch->next(captureOver20, "over_20");
     addNumBranch->next(captureDefault, "added");] *)
Definition branching_world : world members :=
  wire addNum captureDefault "added"
    (wire setNum captureOver20 "over_20"
       (wire setNum addNum "" fresh_world)).

(** [Flow branchingFlow(setNumBranch); branchingFlow.setParams(ps);] *)
Definition branching_flow (ps : Params) : Flow :=
  {| base := setParams ps (mkBaseNode ∅ ∅);
     startNode := Some setNum |}.

(** A flow's [prep] is the default of [BaseNode]: it returns [nullptr]. *)
Definition Flow_prep_default {U} : hook (world U) unit := λ w, (Ok tt, w).

(** The multiplier [SetNumberNode::exec] reads from params [ps]. *)
Definition flow_multiplier (ps : Params) : Z :=
  getParamOrDefault "multiplier" 1 (mkBaseNode ps ∅).

(** [branchingFlow.run(branchingContext)] on freshly built nodes; the
    bound 3 is the length of the longest path of the graph. *)
Definition branching_run (number numberToAdd : Z) (ps : Params)
  : result (option string) * world members * list flow_call :=
  Flow_internalRun (demo_internalRun (branching_classes number numberToAdd))
                   Flow_prep_default 3 (branching_flow ps) branching_world.

(** The simple workflow of [main.cpp]: [MyStartNode] and [MyEndNode]. *)

(** [MyStartNode::exec] *)
Definition MyStartNode_exec (prepResult : unit) : method (world members) string :=
  λ s, (Ok "started", s).

(** [MyStartNode::post]: the result of [exec] is the action. *)
Definition MyStartNode_post (p : unit) (e : string)
  : method (world members) (option string) :=
  λ s, (Ok (Some e), s).

(** [MyEndNode::prep] *)
Definition MyEndNode_prep : method (world members) string :=
  λ s, (Ok "Preparing to end workflow", s).

(** [MyEndNode::exec] *)
Definition MyEndNode_exec (prepResult : string) : method (world members) unit :=
  λ s, (Ok tt, s).

(** [MyEndNode::post]: [ctx["end_node_prep_result"] = p; return std::nullopt;] *)
Definition MyEndNode_post (p : string) (e : unit)
  : method (world members) (option string) :=
  λ s, (Ok None,
        mkMachine (self s) (set_context "end_node_prep_result" (AnyString p) (user s))).

Definition startNode_ref : node_ref := 1%positive.
Definition endNode_ref : node_ref := 2%positive.

(** [internalRun] of the two objects; [moved_string] is the value a
    [std::string] is left with after it has been moved from, which the
    language leaves unspecified. *)
Definition simple_internalRun (moved_string : string → string) (n : node_ref)
  : hook (world members) (option string) :=
  if decide (n = startNode_ref) then
    node_object n
      (Node_internalRun id (BaseNode_prep_default tt) MyStartNode_exec
                        Node_execFallback_default MyStartNode_post 1)
  else
    node_object n
      (Node_internalRun moved_string MyEndNode_prep MyEndNode_exec
                        Node_execFallback_default MyEndNode_post 1).

(** [startNode->next(endNode, "started"); Flow flow(startNode);] *)
Definition simple_world : world members :=
  wire startNode_ref endNode_ref "started" fresh_world.

Definition simple_flow : Flow :=
  {| base := mkBaseNode ∅ ∅; startNode := Some startNode_ref |}.

(** [flow.run(context)] *)
Definition simple_run (moved_string : string → string)
  : result (option string) * world members * list flow_call :=
  Flow_internalRun (simple_internalRun moved_string) Flow_prep_default 2
                   simple_flow simple_world.

(** * Properties *)

(** ** Successor table *)

Lemma getNextNode_lookup (action : option string) (this : BaseNode) :
  getNextNode action this = successors this !! default "" action.
Proof. unfold getNextNode. by destruct (successors this !! default "" action). Qed.

(** C6. A lookup with no action reads the entry under the empty (default)
    label.  Registering [second] under a label that already leads to
    [first] succeeds, returns [second], and afterwards that label leads to
    [second]; every other label leads where it led before, and the
    node's params are untouched. *)
Theorem successor_default_and_last_write_wins
    (this : BaseNode) (first second : node_ref) (label other : string) :
  other ≠ label →
  getNextNode None this = getNextNode (Some "") this
  ∧ getNextNode None this = successors this !! ""
  ∧ ∃ this1 this2,
      next (Some first) label this = (Ok first, this1)
      ∧ getNextNode (Some label) this1 = Some first
      ∧ next (Some second) label this1 = (Ok second, this2)
      ∧ getNextNode (Some label) this2 = Some second
      ∧ getNextNode (Some other) this2 = getNextNode (Some other) this1
      ∧ getNextNode (Some other) this2 = getNextNode (Some other) this
      ∧ params this2 = params this.
Proof.
  intros Hne. split; [done|]. split; [apply getNextNode_lookup|].
  eexists _, _. split; [reflexivity|]. split.
  { rewrite getNextNode_lookup. cbn. apply lookup_insert_eq. }
  split; [reflexivity|]. rewrite !getNextNode_lookup. cbn.
  rewrite lookup_insert_eq, !lookup_insert_ne by done. done.
Qed.

Lemma successor_default_and_last_write_wins_witness :
  "added" ≠ "" ∧
  ∃ this1 this2,
    next (Some first_target) "" (mkBaseNode ∅ ∅) = (Ok first_target, this1)
    ∧ next (Some second_target) "" this1 = (Ok second_target, this2)
    ∧ getNextNode None this2 = Some second_target
    ∧ getNextNode (Some "added") this2 = None.
Proof.
  split; [discriminate|].
  destruct (successor_default_and_last_write_wins
              (mkBaseNode ∅ ∅) first_target second_target "" "added")
    as (Hd & _ & this1 & this2 & H1 & _ & H2 & H3 & _ & H4 & _);
    [discriminate|].
  exists this1, this2. split; [exact H1|]. split; [exact H2|].
  split; [|exact H4].
  replace (getNextNode None this2) with (getNextNode (Some "") this2) by reflexivity.
  exact H3.
Defined.

(** ** Node construction *)

(** C8. [Node_new] fails with [std::invalid_argument] when
    [retries < 1] or [waitMilliseconds < 0], and otherwise yields a node
    holding exactly these values; so whatever it yields has
    [maxRetries ≥ 1] and [waitMillis ≥ 0]. *)
Theorem Node_new_checks_configuration (retries waitMilliseconds : Z) :
  (retries < 1 ∨ waitMilliseconds < 0 →
     ∃ msg, Node_new retries waitMilliseconds
            = Throw (StdException (invalid_argument msg)))
  ∧ (1 ≤ retries ∧ 0 ≤ waitMilliseconds →
     Node_new retries waitMilliseconds
     = Ok {| maxRetries := retries; waitMillis := waitMilliseconds; currentRetry := 0 |})
  ∧ (∀ this, Node_new retries waitMilliseconds = Ok this →
     1 ≤ maxRetries this ∧ 0 ≤ waitMillis this).
Proof.
  unfold Node_new.
  destruct (Z.ltb_spec retries 1) as [Hr|Hr];
    [|destruct (Z.ltb_spec waitMilliseconds 0) as [Hw|Hw]].
  - split; [eauto|]. split; [lia|]. discriminate.
  - split; [eauto|]. split; [lia|]. discriminate.
  - split; [lia|]. split; [done|]. intros this [= <-]. cbn. lia.
Qed.

Lemma Node_new_checks_configuration_witness :
  (∃ msg, Node_new 0 50 = Throw (StdException (invalid_argument msg)))
  ∧ (∃ msg, Node_new 3 (-1) = Throw (StdException (invalid_argument msg)))
  ∧ Node_new 3 50 = Ok {| maxRetries := 3; waitMillis := 50; currentRetry := 0 |}
  ∧ (1 ≤ 3 ∧ 0 ≤ 50).
Proof.
  split; [apply (Node_new_checks_configuration 0 50); lia|].
  split; [apply (Node_new_checks_configuration 3 (-1)); lia|].
  split; [apply (Node_new_checks_configuration 3 50); lia|].
  apply (proj2 (proj2 (Node_new_checks_configuration 3 50))
           {| maxRetries := 3; waitMillis := 50; currentRetry := 0 |}).
  reflexivity.
Defined.

(** ** Disallowed entry points *)

(** C9. [Flow::exec] and [BatchFlow::post] throw [std::logic_error] for
    every argument and from every state; the state they were called in is
    left as it was and no other call is made. *)
Theorem Flow_exec_and_BatchFlow_post_always_throw
    {Ev S : Type} (s : S) (prepResult : unit) (execResult : option string) :
  (∃ e, @Flow_exec Ev S prepResult s = (Throw (StdException e), s, [])
        ∧ dynamic_type e = std_logic_error)
  ∧ (∃ e, @BatchFlow_post Ev S prepResult execResult s = (Throw (StdException e), s, [])
          ∧ dynamic_type e = std_logic_error).
Proof. split; eexists; split; reflexivity. Qed.

(** ** Flow: the params a traversal hands to its nodes *)

Lemma map_insert_range_union (range m : gmap string any) :
  map_insert_range range m = m ∪ range.
Proof.
  unfold map_insert_range.
  apply (map_fold_weak_ind (λ acc range, acc = m ∪ range)).
  - by rewrite (right_id_L ∅ (∪)).
  - intros key value range' acc Hfresh ->.
    destruct ((m ∪ range') !! key) as [v|] eqn:Hk.
    + apply lookup_union_Some_raw in Hk as [Hm|[_ Hr]]; [|congruence].
      apply map_eq. intros j. rewrite !lookup_union.
      destruct (decide (key = j)) as [<-|Hne].
      * by rewrite Hm, Hfresh, lookup_insert_eq.
      * by rewrite lookup_insert_ne.
    + apply lookup_union_None in Hk as [Hm _]. by rewrite insert_union_r.
Qed.

Lemma map_insert_range_lookup (range m : gmap string any) (key : string) :
  map_insert_range range m !! key
  = match m !! key with Some v => Some v | None => range !! key end.
Proof.
  rewrite map_insert_range_union, lookup_union.
  by destruct (m !! key), (range !! key).
Qed.

Section FlowFacts.
Context {U : Type}.
Variable internalRun : node_ref → hook (world U) (option string).

Lemma orchestrate_loop_carries fuel ps :
  ∀ currentNode lastAction w r w' l,
    orchestrate_loop internalRun fuel ps currentNode lastAction w = (r, w', l) →
    Forall (carries ps) l ∧ outline l = [].
Proof.
  induction fuel as [|fuel IH]; intros [n|] lastAction w r w' l H; cbn in H;
    try (injection H as <- <- <-; by split).
  unfold mbind, Eff_bind, node_setParamsInternal, node_internalRun,
    node_getNextNode, invoke in H. cbn in H.
  match type of H with context [internalRun n ?w1] =>
    destruct (internalRun n w1) as [[action|t|] w2] eqn:Hrun end;
    cbn in H; rewrite ?fn_lookup_insert in H;
    try (injection H as <- <- <-; split; [repeat constructor|reflexivity]).
  match type of H with context [orchestrate_loop _ _ _ ?c ?a ?w2] =>
    destruct (orchestrate_loop internalRun fuel ps c a w2) as [[r3 w3] l3] eqn:Hrest end.
  apply IH in Hrest as [Hall Hout].
  injection H as <- <- <-. split; [by repeat constructor|exact Hout].
Qed.

Lemma Flow_orchestrate_carries fuel this initialParams w r w' l :
  Flow_orchestrate internalRun fuel this initialParams w = (r, w', l) →
  Forall (carries (map_insert_range initialParams (params (base this)))) l
  ∧ outline l = [Orchestrate initialParams].
Proof.
  unfold Flow_orchestrate. destruct (startNode this) as [n|].
  - destruct (orchestrate_loop _ _ _ _ _ _) as [[r1 w1] l1] eqn:Hloop.
    apply orchestrate_loop_carries in Hloop as [Hall Hout].
    intros [= <- <- <-]. split; [by constructor|]. cbn. by rewrite Hout.
  - intros [= <- <- <-]. split; [by repeat constructor|done].
Qed.

(** C2 (as amended). Immediately before a node executes, the run params
    replace the node's standing configuration: at the start of every
    [internalRun] of a traversal the node holds exactly the run params
    ([flow.params] with the entries of [initialParams] under keys the
    flow does not define), whatever it held before. *)
Theorem run_params_replace_node_params
    fuel this initialParams w r w' l n seen :
  Flow_orchestrate internalRun fuel this initialParams w = (r, w', l) →
  InternalRun n seen ∈ l →
  seen = map_insert_range initialParams (params (base this))
  ∧ ∀ key, seen !! key = match params (base this) !! key with
                         | Some v => Some v
                         | None => initialParams !! key
                         end.
Proof.
  intros Hrun Hin. apply Flow_orchestrate_carries in Hrun as [Hall _].
  rewrite Forall_forall in Hall. specialize (Hall _ Hin). cbn in Hall.
  subst seen. split; [done|]. intros key. apply map_insert_range_lookup.
Qed.

End FlowFacts.

(** C1 (failing input). The flow holds ["k" ↦ 1] and [orchestrate] is
    called with [initialParams = {"k" ↦ 2}], directly and as the first
    parameter set of a [BatchFlow]: the params pushed into the start node,
    and held by it when it runs, have ["k" ↦ 1]. *)
Theorem orchestrate_keeps_flow_value_on_collision :
  (∃ w',
     Flow_orchestrate quiet_node 3 flow_k1 {[ "k" := AnyInt 2 ]} world_a1
     = (Ok None, w',
        [ Orchestrate {[ "k" := AnyInt 2 ]};
          SetParamsInternal start_ref {[ "k" := AnyInt 1 ]};
          InternalRun start_ref {[ "k" := AnyInt 1 ]} ]))
  ∧ (∃ w',
       BatchFlow_internalRun quiet_node prepBatch_two postBatch_count 3 flow_k1 world_a1
       = (Ok (Some "2"), w',
          [ PrepBatch;
            Orchestrate {[ "k" := AnyInt 2 ]};
            SetParamsInternal start_ref {[ "k" := AnyInt 1 ]};
            InternalRun start_ref {[ "k" := AnyInt 1 ]};
            Orchestrate {[ "j" := AnyInt 3 ]};
            SetParamsInternal start_ref {[ "k" := AnyInt 1; "j" := AnyInt 3 ]};
            InternalRun start_ref {[ "k" := AnyInt 1; "j" := AnyInt 3 ]};
            PostBatch [ {[ "k" := AnyInt 2 ]}; {[ "j" := AnyInt 3 ]} ] ])).
Proof. split; eexists; vm_compute; reflexivity. Qed.

(** C2 (counterexample). A node with the standing param ["a" ↦ 1] is run
    by a flow whose run params are empty: ["a"] collides with nothing, yet
    the node holds no ["a"] when it executes. *)
Lemma standing_params_not_visible :
  params (nodes world_a1 start_ref) !! "a" = Some (AnyInt 1)
  ∧ map_insert_range ∅ (params (base flow_plain)) !! "a" = None
  ∧ ∃ w' seen,
      Flow_orchestrate quiet_node 3 flow_plain ∅ world_a1
      = (Ok None, w',
         [ Orchestrate ∅; SetParamsInternal start_ref seen; InternalRun start_ref seen ])
      ∧ seen !! "a" = None.
Proof.
  split; [reflexivity|]. split; [reflexivity|].
  eexists _, _. split; [vm_compute; reflexivity|reflexivity].
Qed.

Lemma run_params_replace_node_params_witness :
  ∃ seen, seen = map_insert_range {[ "k" := AnyInt 2 ]} (params (base flow_k1))
          ∧ seen !! "k" = Some (AnyInt 1).
Proof.
  destruct (Flow_orchestrate quiet_node 3 flow_k1 {[ "k" := AnyInt 2 ]} world_a1)
    as [[r w'] l] eqn:Hrun.
  exists {[ "k" := AnyInt 1 ]}.
  destruct (run_params_replace_node_params quiet_node 3 flow_k1
              {[ "k" := AnyInt 2 ]} world_a1 r w' l start_ref {[ "k" := AnyInt 1 ]} Hrun)
    as [Heq _].
  - vm_compute in Hrun. injection Hrun as <- <- <-.
    apply list_elem_of_In. right. right. left. reflexivity.
  - split; [exact Heq|reflexivity].
Defined.

(** ** BatchFlow *)

Section BatchFlowFacts.
Context {U : Type}.
Variable internalRun : node_ref → hook (world U) (option string).
Variable prepBatch : hook (world U) (list (gmap string any)).
Variable postBatch : list (gmap string any) → hook (world U) (option string).

Lemma outline_app (l1 l2 : list flow_call) :
  outline (l1 ++ l2) = outline l1 ++ outline l2.
Proof.
  induction l1 as [|ev l1 IH]; [done|].
  destruct ev; cbn; by rewrite ?IH.
Qed.

Lemma BatchFlow_each_sub_runs fuel this pl :
  ∀ w w2,
    sub_runs (Flow_orchestrate internalRun fuel this) pl w w2 →
    ∃ l, BatchFlow_each internalRun fuel this pl w = (Ok tt, w2, l)
         ∧ outline l = Orchestrate <$> pl.
Proof.
  induction pl as [|ps pl IH]; intros w w2 Hsub;
    inversion Hsub as [|? ? ? action w1 l ? Hfirst Hothers]; subst.
  - by exists [].
  - destruct (IH _ _ Hothers) as (l2 & Hrest & Hout).
    exists (l ++ l2). cbn. unfold mbind, Eff_bind. rewrite Hfirst, Hrest.
    split; [done|].
    apply Flow_orchestrate_carries in Hfirst as [_ Hhead].
    by rewrite outline_app, Hhead, Hout.
Qed.

(** C7. [BatchFlow::internalRun] calls [prepBatch]; then, as long as the
    sub-runs return, [orchestrate] once per parameter set in the order of
    the sequence, whatever action a sub-run returns; then [postBatch] on
    the whole sequence, in the world the last sub-run left, and the
    outcome of [postBatch] is the outcome of [internalRun].  With an empty
    sequence [postBatch] is called right after [prepBatch]. *)
Theorem BatchFlow_internalRun_sequence fuel this w pl w1 w2 :
  prepBatch w = (Ok pl, w1) →
  sub_runs (Flow_orchestrate internalRun fuel this) pl w1 w2 →
  ∃ l,
    BatchFlow_internalRun internalRun prepBatch postBatch fuel this w
    = ((postBatch pl w2).1, (postBatch pl w2).2, l)
    ∧ outline l = PrepBatch :: (Orchestrate <$> pl) ++ [PostBatch pl]
    ∧ (pl = [] → w2 = w1 ∧ l = [PrepBatch; PostBatch []]).
Proof.
  intros Hprep Hsub.
  destruct (BatchFlow_each_sub_runs _ _ _ _ _ Hsub) as (l & Heach & Hout).
  exists (PrepBatch :: l ++ [PostBatch pl]).
  unfold BatchFlow_internalRun, mbind, Eff_bind, invoke.
  rewrite Hprep, Heach. destruct (postBatch pl w2) as [res w3]. cbn.
  split; [done|]. split.
  - by rewrite outline_app, Hout.
  - intros ->. inversion Hsub; subst. cbn in Heach. by injection Heach as <-.
Qed.

End BatchFlowFacts.

Lemma BatchFlow_internalRun_sequence_witness :
  (∃ w2 l,
     BatchFlow_internalRun quiet_node prepBatch_two postBatch_count 3 flow_k1 world_a1
     = (Ok (Some "2"), w2, l)
     ∧ outline l = [ PrepBatch;
                     Orchestrate {[ "k" := AnyInt 2 ]};
                     Orchestrate {[ "j" := AnyInt 3 ]};
                     PostBatch [ {[ "k" := AnyInt 2 ]}; {[ "j" := AnyInt 3 ]} ] ])
  ∧ BatchFlow_internalRun quiet_node prepBatch_none postBatch_count 3 flow_k1 world_a1
    = (Ok (Some "0"), world_a1, [PrepBatch; PostBatch []]).
Proof.
  split.
  - pose (run := Flow_orchestrate quiet_node 3 flow_k1).
    pose (wa := (run {[ "k" := AnyInt 2 ]} world_a1).1.2).
    pose (wb := (run {[ "j" := AnyInt 3 ]} wa).1.2).
    destruct (BatchFlow_internalRun_sequence quiet_node prepBatch_two postBatch_count
                3 flow_k1 world_a1 [ {[ "k" := AnyInt 2 ]}; {[ "j" := AnyInt 3 ]} ]
                world_a1 wb)
      as (l & Hrun & Hout & _).
    + reflexivity.
    + eapply (sub_runs_cons _ _ _ _ _ wa); [vm_compute; reflexivity|].
      eapply (sub_runs_cons _ _ _ _ _ wb); [vm_compute; reflexivity|].
      apply sub_runs_nil.
    + exists wb, l. split; [exact Hrun|exact Hout].
  - destruct (BatchFlow_internalRun_sequence quiet_node prepBatch_none postBatch_count
                3 flow_k1 world_a1 [] world_a1 world_a1 eq_refl (sub_runs_nil _ _))
      as (l & Hrun & _ & Hempty).
    destruct (Hempty eq_refl) as [_ ->]. exact Hrun.
Defined.
(** ** Records of failed attempts, measured *)

Section FailedLog.
Context {A : Type}.
Variable a : A.
Variables R w : Z.

Lemma count_exec_app (l1 l2 : list (call A)) :
  count_exec (l1 ++ l2) = (count_exec l1 + count_exec l2)%nat.
Proof. induction l1 as [|[]]; cbn; by rewrite ?IHl1. Qed.

Lemma fallbacks_app (l1 l2 : list (call A)) :
  fallbacks (l1 ++ l2) = fallbacks l1 ++ fallbacks l2.
Proof. induction l1 as [|[]]; cbn; by rewrite ?IHl1. Qed.

Lemma sleeps_app (l1 l2 : list (call A)) :
  sleeps (l1 ++ l2) = sleeps l1 ++ sleeps l2.
Proof. induction l1 as [|[]]; cbn; by rewrite ?IHl1. Qed.

Lemma failed_log_count n : ∀ i, count_exec (failed_log a R w i n) = n.
Proof.
  induction n as [|n IH]; intros i; [done|]. cbn.
  rewrite count_exec_app, IH. unfold pause.
  by destruct (another_attempt_and_wait _).
Qed.

Lemma failed_log_fallbacks n : ∀ i, fallbacks (failed_log a R w i n) = [].
Proof.
  induction n as [|n IH]; intros i; [done|]. cbn.
  rewrite fallbacks_app, IH. unfold pause.
  by destruct (another_attempt_and_wait _).
Qed.






End FailedLog.

Section MeasuredAttempts.
Context {A : Type}.
Variable a : A.
Variables R w : Z.




End MeasuredAttempts.

(** ** The retry loop *)

Section RetryLoop.
Context {U Arg A : Type}.
Variable placeholder : string.
Variable a : Arg.
Variable f : method U A.
Variable body : Eff (call Arg) (machine U) (A + std_exception).
Hypothesis body_spec : attempt_of placeholder a f body.

Lemma stored_after_cons stored t ts :
  stored_after placeholder stored (t :: ts)
  = stored_after placeholder (Some (runtime_error (message_of placeholder t))) ts.
Proof. unfold stored_after. rewrite last_cons. by destruct (last ts). Qed.

(** The loop, by cases on its condition and on what the call does. *)
Lemma for_retries_from_exit fuel stored s :
  maxRetries (self s) ≤ currentRetry (self s) →
  for_retries_from fuel body stored s = (Ok (inr stored), s, []).
Proof.
  intros Hge. destruct fuel; cbn [for_retries_from];
    by rewrite (proj2 (Z.ltb_ge _ _) Hge).
Qed.

Lemma for_retries_from_out_of_fuel stored s :
  currentRetry (self s) < maxRetries (self s) →
  for_retries_from 0 body stored s = (Diverge, s, []).
Proof.
  intros Hlt. cbn [for_retries_from]. by rewrite (proj2 (Z.ltb_lt _ _) Hlt).
Qed.

Lemma for_retries_from_step fuel stored s :
  currentRetry (self s) < maxRetries (self s) →
  for_retries_from (S fuel) body stored s
  = match f s with
    | (Ok v, s1) => (Ok (inl v), s1, [Exec a])
    | (Throw t, s1) =>
        let '(r, s2, l2) :=
          for_retries_from fuel body
            (Some (runtime_error (message_of placeholder t)))
            (increment_currentRetry s1) in
        (r, s2, Exec a :: pause (self s1) ++ l2)
    | (Diverge, s1) => (Diverge, s1, [Exec a])
    end.
Proof.
  intros Hlt. cbn [for_retries_from]. rewrite (proj2 (Z.ltb_lt _ _) Hlt).
  unfold mbind, Eff_bind. rewrite body_spec.
  destruct (f s) as [[v|t|] s1]; [reflexivity| |reflexivity].
  unfold modify_state. cbn.
  by destruct (for_retries_from fuel body _ _) as [[r s2] l2].
Qed.

Lemma fallbacks_pause (this : Node) : fallbacks (@pause Arg this) = [].
Proof. unfold pause. by destruct (another_attempt_and_wait this). Qed.

Lemma count_exec_pause (this : Node) : count_exec (@pause Arg this) = 0%nat.
Proof. unfold pause. by destruct (another_attempt_and_wait this). Qed.

(** What holds of the loop whatever the user method does, to the fields
    too. *)
Lemma for_retries_from_inv fuel :
  ∀ stored s r s' l,
    for_retries_from fuel body stored s = (r, s', l) →
    fallbacks l = []
    ∧ (∀ v, r = Ok (inl v) → ∃ s0 s0', f s0 = (Ok v, s0'))
    ∧ (∀ e, r = Ok (inr (Some e)) → stored = Some e ∨ plain_runtime_error e).
Proof.
  induction fuel as [|fuel IH]; intros stored s r s' l Hrun;
    (destruct (Z.lt_ge_cases (currentRetry (self s)) (maxRetries (self s)))
       as [Hlt|Hge];
     [|rewrite for_retries_from_exit in Hrun by done;
       injection Hrun as <- <- <-;
       (repeat split; try done); intros e [= ->]; by left]).
  - rewrite for_retries_from_out_of_fuel in Hrun by done.
    injection Hrun as <- <- <-. repeat split; done.
  - rewrite for_retries_from_step in Hrun by done.
    destruct (f s) as [[v|t|] s1] eqn:Hf.
    + injection Hrun as <- <- <-. repeat split; try done.
      intros v' [= <-]. eauto.
    + destruct (for_retries_from fuel body _ _) as [[r2 s2] l2] eqn:Hrec.
      apply IH in Hrec as (Hfb & Hinl & Hinr).
      injection Hrun as <- <- <-. split.
      { cbn. by rewrite fallbacks_app, fallbacks_pause, Hfb. }
      split; [exact Hinl|].
      intros e He. destruct (Hinr e He) as [[= <-]|Hplain]; right; [done|exact Hplain].
    + injection Hrun as <- <- <-. repeat split; done.
Qed.

Lemma for_retries_inv fuel s r s' l :
  for_retries fuel body s = (r, s', l) →
  fallbacks l = []
  ∧ (∀ v, r = Ok (inl v) → ∃ s0 s0', f s0 = (Ok v, s0'))
  ∧ (∀ e, r = Ok (inr (Some e)) → plain_runtime_error e).
Proof.
  unfold for_retries, mbind, Eff_bind, modify_state. cbn.
  destruct (for_retries_from fuel body None _) as [[r2 s2] l2] eqn:Hrec.
  apply for_retries_from_inv in Hrec as (Hfb & Hinl & Hinr).
  intros [= <- <- <-]. split; [done|]. split; [exact Hinl|].
  intros e He. by destruct (Hinr e He).
Qed.

(** From here on the user method leaves the [Node] fields alone. *)
Hypothesis frame : keeps_fields f.

Lemma keeps_fields_self s r s1 : f s = (r, s1) → self s1 = self s.
Proof. intros Hf. pose proof (frame s) as Hs. by rewrite Hf in Hs. Qed.

Lemma for_retries_from_all_fail R w ts :
  ∀ fuel i s s' stored,
    self s = mkNode R w i →
    failed_attempts f s ts s' →
    i + Z.of_nat (length ts) = R →
    (length ts ≤ fuel)%nat →
    for_retries_from fuel body stored s
    = (Ok (inr (stored_after placeholder stored ts)), s',
       failed_log a R w i (length ts))
    ∧ self s' = mkNode R w R.
Proof.
  induction ts as [|t ts IH]; intros fuel i s s' stored Hself Hfail;
    inversion Hfail as [|? ? s1 ? ? Hthrow Hrest]; subst; intros Hend Hfuel.
  - cbn in Hend. rewrite Z.add_0_r in Hend. subst i.
    rewrite for_retries_from_exit by (rewrite Hself; cbn; lia).
    by rewrite Hself.
  - cbn [length] in *. destruct fuel as [|fuel]; [lia|].
    rewrite for_retries_from_step, Hthrow by (rewrite Hself; cbn; lia).
    pose proof (keeps_fields_self _ _ _ Hthrow) as Hs1. rewrite Hself in Hs1.
    destruct (IH fuel (i + 1) (increment_currentRetry s1) s'
                (Some (runtime_error (message_of placeholder t)))) as [-> Hs'];
      [by unfold increment_currentRetry, set_currentRetry; rewrite Hs1
      |done|lia|lia|].
    rewrite stored_after_cons, Hs1. done.
Qed.

Lemma for_retries_from_success R w ts :
  ∀ fuel i s s1 v s2 stored,
    self s = mkNode R w i →
    failed_attempts f s ts s1 →
    f s1 = (Ok v, s2) →
    i + Z.of_nat (length ts) < R →
    (length ts < fuel)%nat →
    for_retries_from fuel body stored s
    = (Ok (inl v), s2, failed_log a R w i (length ts) ++ [Exec a])
    ∧ self s2 = mkNode R w (i + Z.of_nat (length ts)).
Proof.
  induction ts as [|t ts IH]; intros fuel i s s1 v s2 stored Hself Hfail;
    inversion Hfail as [|? ? s0 ? ? Hthrow Hrest]; subst; intros Hok Hlt Hfuel;
    cbn [length] in *; (destruct fuel as [|fuel]; [lia|]).
  - rewrite for_retries_from_step, Hok by (rewrite Hself; cbn; lia).
    rewrite (keeps_fields_self _ _ _ Hok), Hself, Z.add_0_r. done.
  - rewrite for_retries_from_step, Hthrow by (rewrite Hself; cbn; lia).
    pose proof (keeps_fields_self _ _ _ Hthrow) as Hs0. rewrite Hself in Hs0.
    destruct (IH fuel (i + 1) (increment_currentRetry s0) s1 v s2
                (Some (runtime_error (message_of placeholder t)))) as [-> Hs2];
      [by unfold increment_currentRetry, set_currentRetry; rewrite Hs0
      |done|done|lia|lia|].
    rewrite Hs0, Hs2. split; [|f_equal; lia].
    cbn [failed_log app]. by rewrite <- app_assoc.
Qed.

End RetryLoop.

(** ** Node::internalExec *)

Section NodeFacts.
Context {U P E : Type}.
Variable exec : P → method U E.
Variable execFallback : P → std_exception → method U E.

Lemma Node_attempt_spec p :
  attempt_of "Non-standard exception caught during exec" p (exec p)
             (Node_attempt exec p).
Proof.
  intros s. unfold Node_attempt, try_catch, mbind, Eff_bind, call_method.
  destruct (exec p s) as [[v|[e|x]|] s1]; cbn; try reflexivity;
    unfold pause; destruct (another_attempt_and_wait (self s1)); reflexivity.
Qed.

(** What [Node::internalExec] does when [exec] leaves the fields alone,
    every permitted attempt fails and [t] is what the last one threw. *)
Lemma Node_internalExec_all_fail R w fuel p s ts t s1 :
  keeps_fields (exec p) →
  maxRetries (self s) = R →
  waitMillis (self s) = w →
  failed_attempts (exec p) (reset_currentRetry s) ts s1 →
  length ts = Z.to_nat R →
  last ts = Some t →
  (Z.to_nat R ≤ fuel)%nat →
  let handed :=
    runtime_error (message_of "Non-standard exception caught during exec" t) in
  Node_internalExec exec execFallback fuel p s
  = (escalate "Fallback execution failed after main exec retries failed."
              "Fallback execution failed with non-standard exception."
              "Unknown fallback error"
              (execFallback p handed s1).1,
     (execFallback p handed s1).2,
     failed_log p R w 0 (length ts) ++ [Fallback p handed])
  ∧ self s1 = mkNode R w R.
Proof.
  intros Hframe HR Hw Hfail Hlen Hlast Hfuel handed.
  assert (0 < R).
  { destruct ts; [discriminate|]. cbn [length] in Hlen. lia. }
  destruct (for_retries_from_all_fail _ p (exec p) _ (Node_attempt_spec p) Hframe
              R w ts fuel 0 (reset_currentRetry s) s1 None) as [Hloop Hs1];
    [by destruct s as [[]]; cbn in *; subst|done|lia|lia|].
  split; [|exact Hs1].
  unfold Node_internalExec, for_retries, mbind, Eff_bind, modify_state.
  rewrite Hloop. unfold stored_after. rewrite Hlast. cbn.
  unfold try_catch, call_method. fold handed.
  destruct (execFallback p handed s1) as [[v|[e|x]|] s2]; reflexivity.
Qed.


Lemma Node_new_Ok R w this :
  Node_new R w = Ok this → this = mkNode R w 0 ∧ 1 ≤ R ∧ 0 ≤ w.
Proof.
  unfold Node_new.
  destruct (Z.ltb_spec R 1); [discriminate|].
  destruct (Z.ltb_spec w 0); [discriminate|].
  intros [= <-]. done.
Qed.



End NodeFacts.

(** ** BatchNode::internalExec *)

Section BatchNodeFacts.
Context {U IN_ITEM OUT_ITEM : Type}.
Variable execItem : IN_ITEM → method U OUT_ITEM.
Variable execItemFallback : IN_ITEM → std_exception → method U OUT_ITEM.

Lemma BatchNode_attempt_spec x :
  attempt_of "Non-standard exception during execItem" x (execItem x)
             (BatchNode_attempt execItem x).
Proof.
  intros s. unfold BatchNode_attempt, try_catch, mbind, Eff_bind, call_method.
  destruct (execItem x s) as [[v|[e|y]|] s1]; cbn; try reflexivity;
    unfold pause; destruct (another_attempt_and_wait (self s1)); reflexivity.
Qed.

(** What the loop body does for an item on which every permitted attempt
    fails, [t] being what the last one threw. *)
Lemma BatchNode_item_all_fail R w fuel x s ts t s1 :
  keeps_fields (execItem x) →
  maxRetries (self s) = R →
  waitMillis (self s) = w →
  failed_attempts (execItem x) (reset_currentRetry s) ts s1 →
  length ts = Z.to_nat R →
  last ts = Some t →
  (Z.to_nat R ≤ fuel)%nat →
  let handed :=
    runtime_error (message_of "Non-standard exception during execItem" t) in
  BatchNode_item execItem execItemFallback fuel x s
  = (escalate "Item fallback execution failed."
              "Item fallback failed with non-standard exception."
              "Unknown item fallback error"
              (execItemFallback x handed s1).1,
     (execItemFallback x handed s1).2,
     failed_log x R w 0 (length ts) ++ [Fallback x handed])
  ∧ self s1 = mkNode R w R.
Proof.
  intros Hframe HR Hw Hfail Hlen Hlast Hfuel handed.
  assert (0 < R).
  { destruct ts; [discriminate|]. cbn [length] in Hlen. lia. }
  destruct (for_retries_from_all_fail _ x (execItem x) _ (BatchNode_attempt_spec x)
              Hframe R w ts fuel 0 (reset_currentRetry s) s1 None) as [Hloop Hs1];
    [by destruct s as [[]]; cbn in *; subst|done|lia|lia|].
  split; [|exact Hs1].
  unfold BatchNode_item, for_retries, mbind, Eff_bind, modify_state.
  rewrite Hloop. unfold stored_after. rewrite Hlast. cbn.
  unfold try_catch, call_method. fold handed.
  destruct (execItemFallback x handed s1) as [[v|[e|y]|] s2]; reflexivity.
Qed.

Lemma BatchNode_item_success R w fuel x s ts s1 v s2 :
  keeps_fields (execItem x) →
  maxRetries (self s) = R →
  waitMillis (self s) = w →
  failed_attempts (execItem x) (reset_currentRetry s) ts s1 →
  execItem x s1 = (Ok v, s2) →
  Z.of_nat (length ts) < R →
  (length ts < fuel)%nat →
  BatchNode_item execItem execItemFallback fuel x s
  = (Ok v, s2, failed_log x R w 0 (length ts) ++ [Exec x])
  ∧ self s2 = mkNode R w (Z.of_nat (length ts)).
Proof.
  intros Hframe HR Hw Hfail Hok Hlt Hfuel.
  destruct (for_retries_from_success _ x (execItem x) _ (BatchNode_attempt_spec x)
              Hframe R w ts fuel 0 (reset_currentRetry s) s1 v s2 None) as [Hloop Hs2];
    [by destruct s as [[]]; cbn in *; subst|done|done|lia|lia|].
  split; [|exact Hs2].
  unfold BatchNode_item, for_retries, mbind, Eff_bind, modify_state.
  rewrite Hloop. cbn. by rewrite app_nil_r.
Qed.

(** What holds of every run, whatever the user methods do. *)
Lemma BatchNode_item_inv fuel x s r s' l :
  BatchNode_item execItem execItemFallback fuel x s = (r, s', l) →
  (∀ out, r = Ok out → produced_by execItem execItemFallback x out)
  ∧ Forall (λ c, plain_runtime_error c.2) (fallbacks l).
Proof.
  unfold BatchNode_item, mbind, Eff_bind.
  destruct (for_retries _ _ s) as [[r1 s1] l1] eqn:Hloop.
  apply (for_retries_inv _ x (execItem x) _ (BatchNode_attempt_spec x)) in Hloop
    as (Hfb & Hinl & Hinr).
  destruct r1 as [[v|stored]|t|]; cbn.
  - intros [= <- <- <-]. rewrite app_nil_r, Hfb. split; [|constructor].
    intros out [= <-]. left. by apply Hinl.
  - unfold try_catch, call_method, throw. destruct stored as [e|]; cbn.
    + destruct (execItemFallback x e s1) as [[v|[fe|y]|] s2] eqn:Hfall;
        cbn; intros [= <- <- <-]; rewrite ?app_nil_r, fallbacks_app, Hfb; cbn;
        (split; [|repeat constructor; by apply Hinr]);
        intros out Hout; try discriminate.
      injection Hout as <-. right. eauto.
    + intros [= <- <- <-]. rewrite fallbacks_app, Hfb. cbn.
      split; [discriminate|constructor].
  - intros [= <- <- <-]. rewrite Hfb. split; [discriminate|constructor].
  - intros [= <- <- <-]. rewrite Hfb. split; [discriminate|constructor].
Qed.

Lemma BatchNode_items_inv fuel items :
  ∀ acc s r s' l,
    BatchNode_items execItem execItemFallback fuel items acc s = (r, s', l) →
    (∀ outs, r = Ok outs →
       ∃ new, outs = acc ++ new
              ∧ Forall2 (produced_by execItem execItemFallback) items new)
    ∧ Forall (λ c, plain_runtime_error c.2) (fallbacks l).
Proof.
  induction items as [|x items IH]; intros acc s r s' l Hrun.
  - injection Hrun as <- <- <-. split; [|constructor].
    intros outs [= <-]. exists []. by rewrite app_nil_r.
  - cbn [BatchNode_items] in Hrun. unfold mbind, Eff_bind in Hrun.
    destruct (BatchNode_item _ _ fuel x s) as [[r1 s1] l1] eqn:Hitem.
    apply BatchNode_item_inv in Hitem as (Hprod & Hplain1).
    destruct r1 as [out|t|].
    + destruct (BatchNode_items _ _ fuel items _ s1) as [[r2 s2] l2] eqn:Hrest.
      apply IH in Hrest as (Houts & Hplain2).
      injection Hrun as <- <- <-. split.
      * intros outs Hr. destruct (Houts outs Hr) as (new & -> & Hall).
        exists (out :: new). rewrite <- app_assoc. split; [done|].
        constructor; [by apply Hprod|exact Hall].
      * rewrite fallbacks_app. by apply Forall_app.
    + injection Hrun as <- <- <-. split; [discriminate|exact Hplain1].
    + injection Hrun as <- <- <-. split; [discriminate|exact Hplain1].
Qed.

Lemma BatchNode_internalExec_items fuel items s :
  BatchNode_internalExec execItem execItemFallback fuel items s
  = BatchNode_items execItem execItemFallback fuel items [] s.
Proof. by destruct items. Qed.

Lemma BatchNode_items_app fuel pre :
  ∀ rest acc s outs s1 l1,
    BatchNode_items execItem execItemFallback fuel pre acc s = (Ok outs, s1, l1) →
    BatchNode_items execItem execItemFallback fuel (pre ++ rest) acc s
    = let '(r, s2, l2) := BatchNode_items execItem execItemFallback fuel rest outs s1 in
      (r, s2, l1 ++ l2).
Proof.
  induction pre as [|x pre IH]; intros rest acc s outs s1 l1 Hpre.
  - injection Hpre as <- <- <-. cbn.
    by destruct (BatchNode_items _ _ fuel rest acc s) as [[r s2] l2].
  - cbn [BatchNode_items app] in *. unfold mbind, Eff_bind in *.
    destruct (BatchNode_item _ _ fuel x s) as [[[out|t|] sx] lx]; try discriminate.
    destruct (BatchNode_items _ _ fuel pre _ sx) as [[r2 s2] l2] eqn:Hrest.
    injection Hpre as -> -> <-.
    rewrite (IH rest _ _ _ _ _ Hrest).
    destruct (BatchNode_items _ _ fuel rest outs s1) as [[r3 s3] l3].
    by rewrite app_assoc.
Qed.

(** From here on [execItem] and the item fallback leave the [Node]
    fields alone. *)
Hypothesis frame_execItem : ∀ x, keeps_fields (execItem x).
Hypothesis frame_execItemFallback : ∀ x e, keeps_fields (execItemFallback x e).

(** An item that succeeds or is rescued gives the loop body its value. *)
Lemma BatchNode_item_of_item_done R fuel x s out s' :
  maxRetries (self s) = R →
  (Z.to_nat R ≤ fuel)%nat →
  item_done execItem execItemFallback R x s out s' →
  same_config (self s) (self s')
  ∧ ∃ l, BatchNode_item execItem execItemFallback fuel x s = (Ok out, s', l).
Proof.
  intros HR Hfuel [(ts & s1 & Hfail & Hlt & Hok)|(ts & t & s1 & Hfail & Hlen & Hok)].
  - destruct (BatchNode_item_success R (waitMillis (self s)) fuel x s ts s1 out s'
                (frame_execItem x) HR eq_refl Hfail Hok Hlt) as [Hrun Hs']; [lia|].
    split; [by rewrite Hs'|]. eauto.
  - destruct (BatchNode_item_all_fail R (waitMillis (self s)) fuel x s _ t s1
                (frame_execItem x) HR eq_refl Hfail Hlen (last_snoc _ _) Hfuel)
      as [Hrun Hs1].
    cbv zeta in Hrun. rewrite Hok in Hrun. cbn [fst snd escalate] in Hrun.
    pose proof (frame_execItemFallback x
                  (runtime_error (message_of "Non-standard exception during execItem" t))
                  s1) as Hkeep.
    rewrite Hok in Hkeep. cbn [snd] in Hkeep.
    split; [by rewrite Hkeep, Hs1|]. eauto.
Qed.

Lemma BatchNode_items_of_items_done R fuel items s outs s' :
  items_done execItem execItemFallback R items s outs s' →
  maxRetries (self s) = R →
  (Z.to_nat R ≤ fuel)%nat →
  same_config (self s) (self s')
  ∧ ∀ acc, ∃ l,
      BatchNode_items execItem execItemFallback fuel items acc s
      = (Ok (acc ++ outs), s', l).
Proof.
  intros Hdone. induction Hdone as [s|x items s out s1 outs s' Hitem Hrest IH];
    intros HR Hfuel.
  - split; [done|]. intros acc. exists []. cbn. by rewrite app_nil_r.
  - destruct (BatchNode_item_of_item_done R fuel x s out s1 HR Hfuel Hitem)
      as ([Hm Hw] & l1 & Hrun1).
    destruct IH as ([Hm' Hw'] & Hruns); [congruence|done|].
    split; [split; congruence|].
    intros acc. destruct (Hruns (acc ++ [out])) as (l2 & Hrun2).
    exists (l1 ++ l2). cbn [BatchNode_items]. unfold mbind, Eff_bind.
    rewrite Hrun1, Hrun2. by rewrite <- app_assoc.
Qed.

End BatchNodeFacts.

Section BatchNodeOutput.
Context {U IN_ITEM OUT_ITEM : Type}.
Variable execItem : IN_ITEM → method U OUT_ITEM.
Variable execItemFallback : IN_ITEM → std_exception → method U OUT_ITEM.

(** C3. (1) Whenever [BatchNode::internalExec] returns an output
    sequence, whatever the user methods do, it is as long as the input
    and its [i]-th element is a value returned by [execItem] or
    [execItemFallback] called on the [i]-th input.
    On a node constructed with [maxRetries = R], [waitMillis = w], whose
    [execItem] and [execItemFallback] leave the fields [maxRetries],
    [waitMillis] and [currentRetry] as they are, the loop of each item
    being given room for [R] iterations:
    (2) if for each item in turn some attempt among the first [R] returns
    a value, or all [R] throw and the item fallback returns a value, then
    [internalExec] returns the sequence of these values, in input order,
    in the state the last call left;
    (3) if that holds of the items of [pre] and then, for the item [x],
    all [R] attempts throw and the item fallback throws, the call ends by
    throwing a [NeuralFlowException] and returns no sequence; the calls it
    made are those for [pre] followed by the [R] attempts and the one
    fallback for [x], nothing for the items of [post], and the whole
    outcome is the one for the input cut after [x]. *)
Theorem BatchNode_output_or_abort :
  (∀ fuel items s outs s' log,
     BatchNode_internalExec execItem execItemFallback fuel items s
     = (Ok outs, s', log) →
     length outs = length items
     ∧ Forall2 (produced_by execItem execItemFallback) items outs)
  ∧ (∀ (R w : Z) this u fuel,
       Node_new R w = Ok this →
       (∀ x, keeps_fields (execItem x)) →
       (∀ x e, keeps_fields (execItemFallback x e)) →
       (Z.to_nat R ≤ fuel)%nat →
       (∀ items outs s',
          items_done execItem execItemFallback R items (mkMachine this u) outs s' →
          ∃ log,
            BatchNode_internalExec execItem execItemFallback fuel items
                                   (mkMachine this u)
            = (Ok outs, s', log)
            ∧ length outs = length items)
       ∧ (∀ pre x post outs s1 ts s2,
            items_done execItem execItemFallback R pre (mkMachine this u) outs s1 →
            failed_attempts (execItem x) (reset_currentRetry s1) ts s2 →
            length ts = Z.to_nat R →
            (∀ e, ∃ thrown_by_fallback s3,
               execItemFallback x e s2 = (Throw thrown_by_fallback, s3)) →
            ∃ err s3 l1 handed,
              BatchNode_internalExec execItem execItemFallback fuel pre
                                     (mkMachine this u)
              = (Ok outs, s1, l1)
              ∧ BatchNode_internalExec execItem execItemFallback fuel
                                       (pre ++ x :: post) (mkMachine this u)
                = (Throw (StdException err), s3,
                   l1 ++ failed_log x R w 0 (Z.to_nat R) ++ [Fallback x handed])
              ∧ dynamic_type err = NeuralFlowException_class
              ∧ count_exec (failed_log x R w 0 (Z.to_nat R) ++ [Fallback x handed])
                = Z.to_nat R
              ∧ BatchNode_internalExec execItem execItemFallback fuel
                                       (pre ++ x :: post) (mkMachine this u)
                = BatchNode_internalExec execItem execItemFallback fuel
                                         (pre ++ [x]) (mkMachine this u))).
Proof.
  split.
  { intros fuel items s outs s' log Hrun. rewrite BatchNode_internalExec_items in Hrun.
    apply BatchNode_items_inv in Hrun as (Houts & _).
    destruct (Houts outs eq_refl) as (new & -> & Hall). cbn.
    split; [symmetry; by eapply Forall2_length|exact Hall]. }
  intros R w this u fuel Hnew Hframe Hframe_fb Hfuel.
  apply Node_new_Ok in Hnew as (-> & HR & Hw). split.
  - intros items outs s' Hdone.
    destruct (BatchNode_items_of_items_done execItem execItemFallback Hframe Hframe_fb
                R fuel items _ outs s' Hdone eq_refl Hfuel) as (_ & Hruns).
    destruct (Hruns []) as (log & Hrun). exists log.
    rewrite BatchNode_internalExec_items. split; [exact Hrun|].
    apply BatchNode_items_inv in Hrun as (Houts & _).
    destruct (Houts _ eq_refl) as (new & Heq & Hall). cbn in Heq. subst new.
    symmetry. by eapply Forall2_length.
  - intros pre x post outs s1 ts s2 Hdone Hfail Hlen Hfallback.
    destruct (BatchNode_items_of_items_done execItem execItemFallback Hframe Hframe_fb
                R fuel pre _ outs s1 Hdone eq_refl Hfuel) as ([Hm Hwait] & Hruns).
    destruct (Hruns []) as (l1 & Hpre). cbn [app] in Hpre. cbn in Hm, Hwait.
    rewrite !BatchNode_internalExec_items.
    destruct (last ts) as [t|] eqn:Hlast;
      [|apply last_None in Hlast; subst ts; cbn in Hlen; lia].
    destruct (BatchNode_item_all_fail execItem execItemFallback R w fuel x s1 ts t s2
                (Hframe x) Hm Hwait Hfail Hlen Hlast Hfuel) as [Hitem _].
    rewrite Hlen in Hitem.
    set (handed := runtime_error
                     (message_of "Non-standard exception during execItem" t)) in *.
    destruct (Hfallback handed) as (tf & s3 & Hthrow).
    rewrite Hthrow in Hitem. cbn [fst snd] in Hitem.
    assert (Hcut : ∀ rest,
      BatchNode_items execItem execItemFallback fuel (pre ++ x :: rest) []
                      (mkMachine (mkNode R w 0) u)
      = (escalate "Item fallback execution failed."
                  "Item fallback failed with non-standard exception."
                  "Unknown item fallback error" (Throw tf),
         s3, l1 ++ failed_log x R w 0 (Z.to_nat R) ++ [Fallback x handed])).
    { intros rest. rewrite (BatchNode_items_app _ _ _ _ _ _ _ _ _ _ Hpre).
      cbn [BatchNode_items]. unfold mbind, Eff_bind. rewrite Hitem.
      by destruct tf. }
    destruct tf as [fe|y]; cbn [escalate] in Hcut;
      (eexists _, _, l1, handed; split; [exact Hpre|]; split; [apply Hcut|];
       split; [done|]; split; [|by rewrite !Hcut];
       rewrite count_exec_app, failed_log_count; cbn; lia).
Qed.

End BatchNodeOutput.

(** ** The exception object handed to a fallback *)

Lemma Node_internalExec_fallbacks_plain {U P E : Type}
    (exec : P → method U E) (execFallback : P → std_exception → method U E)
    fuel p s r s' l :
  Node_internalExec exec execFallback fuel p s = (r, s', l) →
  Forall (λ c, plain_runtime_error c.2) (fallbacks l).
Proof.
  unfold Node_internalExec, mbind, Eff_bind.
  destruct (for_retries _ _ s) as [[r1 s1] l1] eqn:Hloop.
  apply (for_retries_inv _ p (exec p) _ (Node_attempt_spec exec p)) in Hloop
    as (Hfb & _ & Hinr).
  destruct r1 as [[v|stored]|t|]; cbn.
  - intros [= <- <- <-]. rewrite app_nil_r, Hfb. constructor.
  - unfold try_catch, call_method, throw. destruct stored as [e|]; cbn.
    + destruct (execFallback p e s1) as [[v|[fe|y]|] s2];
        cbn; intros [= <- <- <-]; rewrite ?app_nil_r, fallbacks_app, Hfb; cbn;
        repeat constructor; by apply Hinr.
    + intros [= <- <- <-]. rewrite fallbacks_app, Hfb. constructor.
  - intros [= <- <- <-]. rewrite Hfb. constructor.
  - intros [= <- <- <-]. rewrite Hfb. constructor.
Qed.

(** C10. When all [R] attempts of [exec] (of [execItem] on an item) throw
    and [t] is what the last one threw, the fallback is called once, with
    an object of dynamic type [std::runtime_error], without payload,
    whose message is [what()] of [t] if [t] is a [std::exception] and the
    fixed text of the handler otherwise (for an [exec] / [execItem] that
    leaves the [Node] fields as they are, the loop being given room for
    [R] iterations).  And in every run of either [internalExec], whatever
    the user methods do, what is handed to a fallback is such a plain
    [std::runtime_error]. *)
Theorem fallback_gets_fresh_runtime_error {U P E IN_ITEM OUT_ITEM : Type}
    (exec : P → method U E) (execFallback : P → std_exception → method U E)
    (execItem : IN_ITEM → method U OUT_ITEM)
    (execItemFallback : IN_ITEM → std_exception → method U OUT_ITEM)
    (R w : Z) this (p : P) (x : IN_ITEM) u ts t s1 ub tsb tb sb1 :
  Node_new R w = Ok this →
  failed_attempts (exec p) (mkMachine this u) (ts ++ [t]) s1 →
  length (ts ++ [t]) = Z.to_nat R →
  failed_attempts (execItem x) (mkMachine this ub) (tsb ++ [tb]) sb1 →
  length (tsb ++ [tb]) = Z.to_nat R →
  (∀ fuel,
     keeps_fields (exec p) →
     (Z.to_nat R ≤ fuel)%nat →
     ∃ r s' log,
       Node_internalExec exec execFallback fuel p (mkMachine this u) = (r, s', log)
       ∧ fallbacks log
         = [(p, mk_exception std_runtime_error
                  match t with
                  | StdException e => what e
                  | NonStandard _ => "Non-standard exception caught during exec"
                  end [])])
  ∧ (∀ fuel,
       keeps_fields (execItem x) →
       (Z.to_nat R ≤ fuel)%nat →
       ∃ r s' log,
         BatchNode_item execItem execItemFallback fuel x (mkMachine this ub)
         = (r, s', log)
         ∧ fallbacks log
           = [(x, mk_exception std_runtime_error
                    match tb with
                    | StdException e => what e
                    | NonStandard _ => "Non-standard exception during execItem"
                    end [])])
  ∧ (∀ fuel p' s r s' log a e,
       Node_internalExec exec execFallback fuel p' s = (r, s', log) →
       (a, e) ∈ fallbacks log →
       dynamic_type e = std_runtime_error ∧ payload e = [])
  ∧ (∀ fuel items s r s' log a e,
       BatchNode_internalExec execItem execItemFallback fuel items s = (r, s', log) →
       (a, e) ∈ fallbacks log →
       dynamic_type e = std_runtime_error ∧ payload e = []).
Proof.
  intros Hnew Hfail Hlen Hfailb Hlenb.
  apply Node_new_Ok in Hnew as (-> & HR & Hw).
  split; [|split; [|split]].
  - intros fuel Hframe Hfuel.
    destruct (Node_internalExec_all_fail exec execFallback R w fuel p
                (mkMachine (mkNode R w 0) u) _ t s1 Hframe eq_refl eq_refl
                Hfail Hlen (last_snoc _ _) Hfuel) as [Hrun _].
    eexists _, _, _. split; [exact Hrun|].
    rewrite fallbacks_app, failed_log_fallbacks. reflexivity.
  - intros fuel Hframe Hfuel.
    destruct (BatchNode_item_all_fail execItem execItemFallback R w fuel x
                (mkMachine (mkNode R w 0) ub) _ tb sb1 Hframe eq_refl eq_refl
                Hfailb Hlenb (last_snoc _ _) Hfuel) as [Hrun _].
    eexists _, _, _. split; [exact Hrun|].
    rewrite fallbacks_app, failed_log_fallbacks. reflexivity.
  - intros fuel p' s r s' log a e Hrun Hin.
    apply Node_internalExec_fallbacks_plain in Hrun.
    rewrite Forall_forall in Hrun. exact (Hrun _ Hin).
  - intros fuel items s r s' log a e Hrun Hin.
    rewrite BatchNode_internalExec_items in Hrun.
    apply BatchNode_items_inv in Hrun as (_ & Hplain).
    rewrite Forall_forall in Hplain. exact (Hplain _ Hin).
Qed.

(** ** Examples *)

Lemma exec_flaky_keeps_fields k p : keeps_fields (exec_flaky k p).
Proof. intros s. unfold exec_flaky. by destruct (user s <? k)%nat. Qed.

Lemma execItem_even_keeps_fields x : keeps_fields (execItem_even x).
Proof. intros s. unfold execItem_even. by destruct (Z.odd x). Qed.

Lemma BatchNode_execItemFallback_default_keeps_fields
    {U IN_ITEM OUT_ITEM : Type} (x : IN_ITEM) e :
  keeps_fields (@BatchNode_execItemFallback_default U IN_ITEM OUT_ITEM x e).
Proof. by intros s. Qed.



Lemma BatchNode_output_or_abort_witness :
  (length [20; 40] = length [2; 4]
   ∧ Forall2 (produced_by execItem_even BatchNode_execItemFallback_default)
             [2; 4] [20; 40])
  ∧ (∃ log,
       BatchNode_internalExec execItem_even BatchNode_execItemFallback_default 2
                              [2; 4] (mkMachine (mkNode 2 0 0) 0%nat)
       = (Ok [20; 40], mkMachine (mkNode 2 0 0) 2%nat, log)
       ∧ length [20; 40] = length [2; 4])
  ∧ ∃ err s3 l1 handed,
      BatchNode_internalExec execItem_even BatchNode_execItemFallback_default 2
                             [2] (mkMachine (mkNode 2 0 0) 0%nat)
      = (Ok [20], mkMachine (mkNode 2 0 0) 1%nat, l1)
      ∧ BatchNode_internalExec execItem_even BatchNode_execItemFallback_default 2
                               [2; 3; 4] (mkMachine (mkNode 2 0 0) 0%nat)
        = (Throw (StdException err), s3,
           l1 ++ [Exec 3; Exec 3; Fallback 3 handed])
      ∧ dynamic_type err = NeuralFlowException_class.
Proof.
  destruct (BatchNode_output_or_abort execItem_even
              (@BatchNode_execItemFallback_default nat Z Z)) as [Hout Hrest].
  destruct (Hrest 2 0 (mkNode 2 0 0) 0%nat 2%nat eq_refl execItem_even_keeps_fields
              BatchNode_execItemFallback_default_keeps_fields)
    as [Hreturns Habort]; [cbn; lia|].
  assert (Hitem : ∀ s,
    item_done execItem_even (@BatchNode_execItemFallback_default nat Z Z) 2 2
              s 20 (mkMachine (set_currentRetry 0 (self s)) (S (user s)))).
  { intros s. left. exists [], (reset_currentRetry s).
    split; [apply failed_attempts_nil|]. split; [cbn; lia|reflexivity]. }
  split; [|split].
  - apply (Hout 2%nat [2; 4] (mkMachine (mkNode 2 0 0) 0%nat) [20; 40]
             (mkMachine (mkNode 2 0 0) 2%nat) [Exec 2; Exec 4]).
    reflexivity.
  - apply (Hreturns [2; 4] [20; 40] (mkMachine (mkNode 2 0 0) 2%nat)).
    eapply items_done_cons; [apply Hitem|].
    eapply items_done_cons; [|apply items_done_nil].
    left. exists [], (mkMachine (mkNode 2 0 0) 1%nat).
    split; [apply failed_attempts_nil|]. split; [cbn; lia|reflexivity].
  - destruct (Habort [2] 3 [4] [20] (mkMachine (mkNode 2 0 0) 1%nat)
                [NonStandard (AnyInt 3); NonStandard (AnyInt 3)]
                (mkMachine (mkNode 2 0 2) 3%nat))
      as (err & s3 & l1 & handed & Hpre & Hrun & Hclass & _).
    + eapply items_done_cons; [apply Hitem|apply items_done_nil].
    + repeat (eapply failed_attempts_cons; [reflexivity|]). apply failed_attempts_nil.
    + reflexivity.
    + intros e. eexists _, _. reflexivity.
    + exists err, s3, l1, handed. split; [exact Hpre|]. split; [exact Hrun|exact Hclass].
Defined.

Lemma fallback_gets_fresh_runtime_error_witness :
  (∃ r s' log,
     Node_internalExec (exec_flaky 9) execFallback_minus_one 2 7
                       (mkMachine (mkNode 2 0 0) 0%nat) = (r, s', log)
     ∧ fallbacks log = [(7, mk_exception std_runtime_error "timed out" [])])
  ∧ (∃ r s' log,
       BatchNode_item execItem_even BatchNode_execItemFallback_default 2 3
                      (mkMachine (mkNode 2 0 0) 0%nat) = (r, s', log)
       ∧ fallbacks log
         = [(3, mk_exception std_runtime_error
                  "Non-standard exception during execItem" [])]).
Proof.
  destruct (fallback_gets_fresh_runtime_error
              (exec_flaky 9) execFallback_minus_one
              execItem_even BatchNode_execItemFallback_default
              2 0 (mkNode 2 0 0) 7 3
              0%nat [StdException (Timeout 0)] (StdException (Timeout 1))
              (mkMachine (mkNode 2 0 2) 2%nat)
              0%nat [NonStandard (AnyInt 3)] (NonStandard (AnyInt 3))
              (mkMachine (mkNode 2 0 2) 2%nat))
    as (Hnode & Hitem & _).
  - reflexivity.
  - repeat (eapply failed_attempts_cons; [reflexivity|]). apply failed_attempts_nil.
  - reflexivity.
  - repeat (eapply failed_attempts_cons; [reflexivity|]). apply failed_attempts_nil.
  - reflexivity.
  - split.
    + apply (Hnode 2%nat); [apply exec_flaky_keeps_fields|cbn; lia].
    + apply (Hitem 2%nat); [apply execItem_even_keeps_fields|cbn; lia].
Defined.

(** With [waitMillis = 0] the delay between two attempts is realised
    without a call of [sleep_for]. *)
Example zero_wait_makes_no_sleep_call :
  ∃ r s' log,
    Node_internalExec (exec_flaky 9) execFallback_minus_one 2 7
                      (mkMachine (mkNode 2 0 0) 0%nat) = (r, s', log)
    ∧ log = [Exec 7; Exec 7;
             Fallback 7 (mk_exception std_runtime_error "timed out" [])]
    ∧ delays log = [0]
    ∧ sleeps log = [].
Proof. eexists _, _, _. split; [reflexivity|]. repeat split. Qed.


(** * Further properties *)

(** ** The traversal of [Flow::orchestrate] *)

Section WalkFacts.
Context {U : Type}.
Variable internalRun : node_ref → hook (world U) (option string).

Lemma orchestrate_loop_step fuel ps n lastAction w :
  orchestrate_loop internalRun (S fuel) ps (Some n) lastAction w
  = match internalRun n (pushed n ps w) with
    | (Ok action, w1) =>
        let '(r, w2, l) :=
          orchestrate_loop internalRun fuel ps
            (getNextNode action (nodes w1 n)) action w1 in
        (r, w2, SetParamsInternal n ps :: InternalRun n ps :: l)
    | (Throw t, w1) => (Throw t, w1, [SetParamsInternal n ps; InternalRun n ps])
    | (Diverge, w1) => (Diverge, w1, [SetParamsInternal n ps; InternalRun n ps])
    end.
Proof.
  cbn [orchestrate_loop].
  unfold mbind, Eff_bind, node_setParamsInternal, node_internalRun,
    node_getNextNode, invoke, pushed, getParams. cbn.
  rewrite fn_lookup_insert. cbn.
  destruct (internalRun n _) as [[action|t|] w1]; try reflexivity.
  by destruct (orchestrate_loop _ _ _ _ _ _) as [[r w2] l].
Qed.

Lemma orchestrate_loop_walk ps n w path outcome w' :
  walk internalRun ps n w path outcome w' →
  ∀ fuel lastAction,
    (length path ≤ fuel)%nat →
    ∃ l, orchestrate_loop internalRun fuel ps (Some n) lastAction w = (outcome, w', l)
         ∧ nodes_run l = path.
Proof.
  induction 1 as [n w action w1 Hrun Hnext|n w t w1 Hrun
                 |n w action w1 m path outcome w' Hrun Hnext Hwalk IH];
    intros [|fuel] lastAction Hfuel; cbn in Hfuel; try lia;
    rewrite orchestrate_loop_step, Hrun.
  - rewrite Hnext. destruct fuel; cbn; eauto.
  - eauto.
  - rewrite Hnext. destruct (IH fuel action) as (l & -> & Hl); [lia|].
    eexists. split; [reflexivity|]. cbn. by rewrite Hl.
Qed.

Lemma orchestrate_loop_returns fuel ps :
  ∀ n lastAction w outcome w' l,
    orchestrate_loop internalRun fuel ps (Some n) lastAction w = (outcome, w', l) →
    outcome ≠ Diverge →
    walk internalRun ps n w (nodes_run l) outcome w'.
Proof.
  induction fuel as [|fuel IH]; intros n lastAction w outcome w' l Hloop Hend.
  - cbn in Hloop. injection Hloop as <- <- <-. done.
  - rewrite orchestrate_loop_step in Hloop.
    destruct (internalRun n (pushed n ps w)) as [[action|t|] w1] eqn:Hrun.
    + destruct (getNextNode action (nodes w1 n)) as [m|] eqn:Hnext.
      * destruct (orchestrate_loop _ fuel ps (Some m) action w1)
          as [[r w2] l2] eqn:Hrest.
        injection Hloop as <- <- <-. cbn.
        eapply walk_next; eauto.
      * assert (orchestrate_loop internalRun fuel ps None action w1
                = (Ok action, w1, [])) as Hstop by (by destruct fuel).
        rewrite Hstop in Hloop. injection Hloop as <- <- <-. cbn.
        by apply walk_end.
    + injection Hloop as <- <- <-. cbn. by apply walk_throw.
    + injection Hloop as <- <- <-. done.
Qed.

(** X1. If, starting at the start node, the successor chain chosen by the
    actions the nodes return ends (at a node whose action has no
    successor, or at a node that throws), [orchestrate] run with a bound of
    at least the length of the chain runs exactly the nodes of the chain,
    in order, and returns the last node's action, or throws what that
    node threw, unwrapped. *)
Theorem orchestrate_runs_the_successor_chain
    fuel this initialParams start w path outcome w' :
  startNode this = Some start →
  walk internalRun (map_insert_range initialParams (params (base this)))
       start w path outcome w' →
  (length path ≤ fuel)%nat →
  ∃ l, Flow_orchestrate internalRun fuel this initialParams w = (outcome, w', l)
       ∧ nodes_run l = path.
Proof.
  intros Hstart Hwalk Hfuel. unfold Flow_orchestrate. rewrite Hstart.
  destruct (orchestrate_loop_walk _ _ _ _ _ _ Hwalk fuel None Hfuel) as (l & -> & Hl).
  eexists. split; [reflexivity|]. exact Hl.
Qed.

(** X2. Whenever [orchestrate] returns or throws, the nodes it ran form
    the successor chain from the start node, and its result is that of the
    chain's last node; without a start node it runs nothing, returns no
    action and leaves the world as it was. *)
Theorem orchestrate_result_is_end_of_chain
    fuel this initialParams w outcome w' l :
  Flow_orchestrate internalRun fuel this initialParams w = (outcome, w', l) →
  outcome ≠ Diverge →
  match startNode this with
  | Some start =>
      walk internalRun (map_insert_range initialParams (params (base this)))
           start w (nodes_run l) outcome w'
  | None => outcome = Ok None ∧ w' = w ∧ nodes_run l = []
  end.
Proof.
  unfold Flow_orchestrate. destruct (startNode this) as [start|].
  - destruct (orchestrate_loop _ _ _ _ _ _) as [[r w2] l2] eqn:Hloop.
    intros [= <- <- <-] Hend. cbn.
    by eapply orchestrate_loop_returns.
  - by intros [= <- <- <-] _.
Qed.

(** X3. No cycle detection: a start node that returns no action, changes
    nothing, and is its own default successor keeps [orchestrate] running
    whatever the bound. *)
Theorem orchestrate_self_loop_never_returns
    fuel this initialParams start w :
  startNode this = Some start →
  (∀ w0, internalRun start w0 = (Ok None, w0)) →
  successors (nodes w start) !! "" = Some start →
  (Flow_orchestrate internalRun fuel this initialParams w).1.1 = Diverge.
Proof.
  intros Hstart Hquiet Hloop. unfold Flow_orchestrate. rewrite Hstart.
  set (ps := map_insert_range initialParams (params (base this))).
  assert (∀ lastAction w0,
            successors (nodes w0 start) !! "" = Some start →
            (orchestrate_loop internalRun fuel ps (Some start) lastAction w0).1.1
            = Diverge) as Hdiv.
  { induction fuel as [|fuel IH]; intros lastAction w0 Hself; [done|].
    rewrite orchestrate_loop_step, Hquiet.
    assert (getNextNode None (nodes (pushed start ps w0) start) = Some start) as ->.
    { rewrite getNextNode_lookup. cbn. by rewrite fn_lookup_insert. }
    specialize (IH None (pushed start ps w0)).
    destruct (orchestrate_loop _ fuel ps _ _ _) as [[r w2] l2]. cbn in *.
    apply IH. by rewrite fn_lookup_insert. }
  specialize (Hdiv None w Hloop).
  by destruct (orchestrate_loop _ _ _ _ _ _) as [[r w2] l2].
Qed.


End WalkFacts.

(** ** BatchFlow: sub-runs that throw, flows without a start node *)

Section BatchFlowAbort.
Context {U : Type}.
Variable internalRun : node_ref → hook (world U) (option string).
Variable prepBatch : hook (world U) (list Params).
Variable postBatch : list Params → hook (world U) (option string).

Lemma BatchFlow_each_throw fuel this pre :
  ∀ w w2 ps rest t w3 lf,
    sub_runs (Flow_orchestrate internalRun fuel this) pre w w2 →
    Flow_orchestrate internalRun fuel this ps w2 = (Throw t, w3, lf) →
    ∃ l, BatchFlow_each internalRun fuel this (pre ++ ps :: rest) w = (Throw t, w3, l)
         ∧ outline l = (Orchestrate <$> pre) ++ [Orchestrate ps].
Proof.
  induction pre as [|p pre IH]; intros w w2 ps rest t w3 lf Hsub Hthrow;
    inversion Hsub as [|? ? ? action w1 l1 ? Hfirst Hothers]; subst.
  - exists lf. cbn. unfold mbind, Eff_bind. rewrite Hthrow. split; [done|].
    by apply Flow_orchestrate_carries in Hthrow as [_ ->].
  - destruct (IH _ _ ps rest _ _ _ Hothers Hthrow) as (l2 & Hrest & Hout).
    exists (l1 ++ l2). cbn. unfold mbind, Eff_bind. rewrite Hfirst, Hrest.
    split; [done|].
    apply Flow_orchestrate_carries in Hfirst as [_ Hhead].
    by rewrite outline_app, Hhead, Hout.
Qed.

(** X5. When the sub-run on one parameter set throws, after the sub-runs
    before it returned, [BatchFlow::internalRun] throws the same object:
    the parameter sets after it are not orchestrated and [postBatch] is
    not called. *)
Theorem BatchFlow_stops_at_throwing_sub_run
    fuel this w pre ps rest w1 w2 t w3 lf :
  prepBatch w = (Ok (pre ++ ps :: rest), w1) →
  sub_runs (Flow_orchestrate internalRun fuel this) pre w1 w2 →
  Flow_orchestrate internalRun fuel this ps w2 = (Throw t, w3, lf) →
  ∃ l,
    BatchFlow_internalRun internalRun prepBatch postBatch fuel this w
    = (Throw t, w3, l)
    ∧ outline l = PrepBatch :: (Orchestrate <$> pre) ++ [Orchestrate ps].
Proof.
  intros Hprep Hsub Hthrow.
  destruct (BatchFlow_each_throw fuel this pre _ _ ps rest _ _ _ Hsub Hthrow)
    as (l & Heach & Hout).
  exists (PrepBatch :: l).
  unfold BatchFlow_internalRun, mbind, Eff_bind, invoke.
  rewrite Hprep, Heach. cbn. by rewrite Hout.
Qed.



End BatchFlowAbort.
(** ** What the caller of [internalExec] gets when the retries are used up *)

Lemma string_append_assoc (s1 s2 s3 : string) :
  (s1 +:+ s2) +:+ s3 = s1 +:+ s2 +:+ s3.
Proof.
  induction s1 as [|c s1 IH]; [done|].
  change (String c ((s1 +:+ s2) +:+ s3) = String c (s1 +:+ s2 +:+ s3)).
  by rewrite IH.
Qed.

(** X7. After [R] failed attempts of an [exec] that leaves the [Node]
    fields as they are, the fallback is called with [currentRetry = R]
    and its outcome decides: a value it returns is returned by
    [Node::internalExec]; a [std::exception] it throws comes out as a
    [NeuralFlowException] whose message wraps the fallback's message;
    anything else it throws comes out as a [NeuralFlowException] with a
    fixed message.  The state is the one the fallback left. *)
Theorem fallback_outcome_reaches_caller {U P E : Type}
    (exec : P → method U E) (execFallback : P → std_exception → method U E)
    (R w : Z) this p u ts t s1 fuel :
  Node_new R w = Ok this →
  keeps_fields (exec p) →
  failed_attempts (exec p) (mkMachine this u) (ts ++ [t]) s1 →
  length (ts ++ [t]) = Z.to_nat R →
  (Z.to_nat R ≤ fuel)%nat →
  let handed :=
    runtime_error (message_of "Non-standard exception caught during exec" t) in
  let fallen := execFallback p handed s1 in
  self s1 = set_currentRetry R this
  ∧ ∃ r s' log,
      Node_internalExec exec execFallback fuel p (mkMachine this u) = (r, s', log)
      ∧ s' = fallen.2
      ∧ match fallen.1 with
        | Ok v => r = Ok v
        | Throw (StdException e) =>
            r = Throw (StdException (mk_exception NeuralFlowException_class
                  ("Fallback execution failed after main exec retries failed. (Caused by: "
                   +:+ what e +:+ ")") []))
        | Throw (NonStandard _) =>
            r = Throw (StdException (mk_exception NeuralFlowException_class
                  "Fallback execution failed with non-standard exception. (Caused by: Unknown fallback error)"
                  []))
        | Diverge => r = Diverge
        end.
Proof.
  intros Hnew Hframe Hfail Hlen Hfuel handed fallen.
  apply Node_new_Ok in Hnew as (-> & HR & Hw).
  destruct (Node_internalExec_all_fail exec execFallback R w fuel p
              (mkMachine (mkNode R w 0) u) _ t s1 Hframe eq_refl eq_refl
              Hfail Hlen (last_snoc _ _) Hfuel) as [Hrun Hs1].
  split; [exact Hs1|].
  eexists _, _, _. split; [exact Hrun|]. split; [reflexivity|].
  subst fallen handed.
  destruct (execFallback p _ s1) as [[v|[e|x]|] s2]; reflexivity.
Qed.

(** X8. With the default fallbacks, [R] failed attempts (of an [exec] /
    [execItem] that leaves the [Node] fields as they are) end in a
    [NeuralFlowException] whose message wraps the default fallback's
    message, which in turn wraps the message of the last failure; for a
    [Node] it names [maxRetries].  The state is the one the last attempt
    left, with [currentRetry = R]. *)
Theorem default_fallbacks_wrap_last_failure {U P E IN_ITEM OUT_ITEM : Type}
    (exec : P → method U E) (execItem : IN_ITEM → method U OUT_ITEM)
    (R w : Z) this (p : P) (x : IN_ITEM) u ts t s1 ub tsb tb sb1 fuel :
  Node_new R w = Ok this →
  keeps_fields (exec p) →
  keeps_fields (execItem x) →
  (Z.to_nat R ≤ fuel)%nat →
  failed_attempts (exec p) (mkMachine this u) (ts ++ [t]) s1 →
  length (ts ++ [t]) = Z.to_nat R →
  failed_attempts (execItem x) (mkMachine this ub) (tsb ++ [tb]) sb1 →
  length (tsb ++ [tb]) = Z.to_nat R →
  (self s1 = set_currentRetry R this
   ∧ ∃ log,
     Node_internalExec exec Node_execFallback_default fuel p (mkMachine this u)
     = (Throw (StdException (mk_exception NeuralFlowException_class
          ("Fallback execution failed after main exec retries failed. (Caused by: "
           +:+ "Node execution failed after " +:+ pretty R
           +:+ " retries, and fallback was not implemented or also failed. (Caused by: "
           +:+ message_of "Non-standard exception caught during exec" t +:+ "))")
          [])),
        s1, log))
  ∧ (self sb1 = set_currentRetry R this
     ∧ ∃ log,
       BatchNode_item execItem BatchNode_execItemFallback_default fuel x
                      (mkMachine this ub)
       = (Throw (StdException (mk_exception NeuralFlowException_class
            ("Item fallback execution failed. (Caused by: "
             +:+ "Batch item execution failed after retries, and fallback was not implemented or also failed. (Caused by: "
             +:+ message_of "Non-standard exception during execItem" tb +:+ "))")
            [])),
          sb1, log)).
Proof.
  intros Hnew Hframe Hframeb Hfuel Hfail Hlen Hfailb Hlenb.
  apply Node_new_Ok in Hnew as (-> & HR & Hw).
  split.
  - destruct (Node_internalExec_all_fail exec Node_execFallback_default R w fuel p
                (mkMachine (mkNode R w 0) u) _ t s1 Hframe eq_refl eq_refl
                Hfail Hlen (last_snoc _ _) Hfuel) as [Hrun Hs1].
    split; [exact Hs1|].
    eexists. rewrite Hrun. unfold Node_execFallback_default.
    rewrite Hs1. cbn [fst snd escalate maxRetries].
    unfold NeuralFlowException_cause. cbn [what].
    rewrite !string_append_assoc. reflexivity.
  - destruct (BatchNode_item_all_fail execItem BatchNode_execItemFallback_default
                R w fuel x (mkMachine (mkNode R w 0) ub) _ tb sb1 Hframeb
                eq_refl eq_refl Hfailb Hlenb (last_snoc _ _) Hfuel) as [Hrun Hs1].
    split; [exact Hs1|].
    eexists. rewrite Hrun. unfold BatchNode_execItemFallback_default.
    cbn [fst snd escalate].
    unfold NeuralFlowException_cause. cbn [what].
    rewrite !string_append_assoc. reflexivity.
Qed.

(** ** Bounds that hold in every run of the retry engine *)

Section RetryBounds.
Context {U Arg A : Type}.
Variable placeholder : string.
Variable a : Arg.
Variable f : method U A.
Variable body : Eff (call Arg) (machine U) (A + std_exception).
Hypothesis body_spec : attempt_of placeholder a f body.
Hypothesis frame : keeps_fields f.

Lemma pause_bounds (this : Node) :
  Forall (made_for (waitMillis this) a) (pause this)
  ∧ (length (sleeps (@pause Arg this))
     + Z.to_nat (maxRetries this - 1 - (currentRetry this + 1))
     ≤ Z.to_nat (maxRetries this - 1 - currentRetry this))%nat.
Proof.
  unfold pause, another_attempt_and_wait.
  destruct (Z.ltb_spec (currentRetry this) (maxRetries this - 1));
    destruct (Z.ltb_spec 0 (waitMillis this)); cbn;
    (split; [repeat constructor; done|lia]).
Qed.

Lemma for_retries_from_bounds fuel :
  ∀ stored s r s' l,
    for_retries_from fuel body stored s = (r, s', l) →
    same_config (self s) (self s')
    ∧ Forall (made_for (waitMillis (self s)) a) l
    ∧ (count_exec l ≤ Z.to_nat (maxRetries (self s) - currentRetry (self s)))%nat
    ∧ (length (sleeps l)
       ≤ Z.to_nat (maxRetries (self s) - 1 - currentRetry (self s)))%nat
    ∧ (∀ e, r = Ok (inr e) →
         count_exec l = Z.to_nat (maxRetries (self s) - currentRetry (self s))).
Proof.
  induction fuel as [|fuel IH]; intros stored s r s' l Hrun;
    (destruct (Z.lt_ge_cases (currentRetry (self s)) (maxRetries (self s)))
       as [Hlt|Hge];
     [|rewrite for_retries_from_exit in Hrun by done;
       injection Hrun as <- <- <-; cbn;
       (repeat split; try done); try constructor; lia]).
  - rewrite for_retries_from_out_of_fuel in Hrun by done.
    injection Hrun as <- <- <-. cbn. repeat split; try done; try constructor; lia.
  - rewrite (for_retries_from_step _ _ _ _ body_spec) in Hrun by done.
    destruct (f s) as [[v|t|] s1] eqn:Hf;
      pose proof (keeps_fields_self _ frame _ _ _ Hf) as Hs1.
    + injection Hrun as <- <- <-. cbn. rewrite Hs1.
      repeat split; try done; [by repeat constructor|lia|lia].
    + destruct (for_retries_from fuel body _ _) as [[r2 s2] l2] eqn:Hrec.
      apply IH in Hrec as ([Hm Hw] & Hall & Hc & Hlen & Hinr).
      unfold increment_currentRetry, set_currentRetry in *.
      cbn [self user maxRetries waitMillis currentRetry] in *.
      rewrite Hs1 in *.
      destruct (pause_bounds (self s)) as [Hpall Hplen].
      injection Hrun as <- <- <-.
      change (Exec a :: pause (self s) ++ l2)
        with ([Exec a] ++ pause (self s) ++ l2).
      rewrite !count_exec_app, !sleeps_app, !length_app, count_exec_pause.
      cbn [count_exec sleeps length].
      split; [done|].
      split; [apply Forall_app; split; [by repeat constructor|by apply Forall_app]|].
      split; [lia|]. split; [lia|].
      intros e He. specialize (Hinr e He). lia.
    + injection Hrun as <- <- <-. cbn. rewrite Hs1.
      repeat split; try done; [by repeat constructor|lia|lia].
Qed.

Lemma for_retries_bounds fuel s r s' l :
  for_retries fuel body s = (r, s', l) →
  same_config (self s) (self s')
  ∧ Forall (made_for (waitMillis (self s)) a) l
  ∧ (count_exec l ≤ Z.to_nat (maxRetries (self s)))%nat
  ∧ (length (sleeps l) ≤ Z.to_nat (maxRetries (self s) - 1))%nat
  ∧ (∀ e, r = Ok (inr e) → count_exec l = Z.to_nat (maxRetries (self s))).
Proof.
  unfold for_retries, mbind, Eff_bind, modify_state. cbn.
  destruct (for_retries_from fuel body None _) as [[r2 s2] l2] eqn:Hrec.
  apply for_retries_from_bounds in Hrec as (Hcfg & Hall & Hc & Hlen & Hinr).
  cbn in Hcfg, Hall, Hc, Hlen, Hinr. rewrite !Z.sub_0_r in *.
  intros [= <- <- <-]. done.
Qed.

End RetryBounds.

Lemma made_for_sleeps {A : Type} (w : Z) (x : A) (l : list (call A)) :
  Forall (made_for w x) l → Forall (λ ms, ms = w ∧ 0 < ms) (sleeps l).
Proof.
  induction 1 as [|[a|ms|a e] l Hc Hl IH]; cbn; [constructor|done| |done].
  by constructor.
Qed.

(** A record of the loop, followed by what the fallback step adds. *)
Lemma item_segment_intro {A : Type} (R w : Z) (x : A) (l tail : list (call A)) :
  Forall (made_for w x) l →
  fallbacks l = [] →
  (count_exec l ≤ Z.to_nat R)%nat →
  (length (sleeps l) ≤ Z.to_nat (R - 1))%nat →
  tail = [] ∨ (∃ e, tail = [Fallback x e] ∧ count_exec l = Z.to_nat R) →
  item_segment R w x (l ++ tail).
Proof.
  intros Hall Hfb Hc Hs [->|(e & -> & Hfull)]; unfold item_segment.
  - rewrite app_nil_r, Hfb. cbn. repeat split; try done; lia.
  - rewrite count_exec_app, fallbacks_app, sleeps_app, Hfb, app_nil_r. cbn.
    split; [apply Forall_app; split; [done|by repeat constructor]|].
    split; [lia|]. split; [lia|]. split; [|lia].
    intros _. exists l, e. done.
Qed.

(** X9. In every run of [Node::internalExec] with an [exec] that leaves
    the [Node] fields as they are, whatever else [exec] and the fallback
    do and however long the loop is allowed to run: [exec] is called at
    most [maxRetries] times; the fallback is called at most once, and
    then as the last call, after exactly [maxRetries] calls of [exec];
    [sleep_for] is called at most [maxRetries - 1] times, always with
    [waitMillis], and never when [waitMillis] is zero. *)
Theorem Node_internalExec_call_bounds {U P E : Type}
    (exec : P → method U E) (execFallback : P → std_exception → method U E)
    fuel p (s : machine U) r s' log :
  keeps_fields (exec p) →
  Node_internalExec exec execFallback fuel p s = (r, s', log) →
  (count_exec log ≤ Z.to_nat (maxRetries (self s)))%nat
  ∧ (length (fallbacks log) ≤ 1)%nat
  ∧ (fallbacks log ≠ [] →
       count_exec log = Z.to_nat (maxRetries (self s))
       ∧ ∃ before e, log = before ++ [Fallback p e]
                     ∧ fallbacks before = []
                     ∧ count_exec before = Z.to_nat (maxRetries (self s)))
  ∧ (length (sleeps log) ≤ Z.to_nat (maxRetries (self s) - 1))%nat
  ∧ Forall (λ ms, ms = waitMillis (self s) ∧ 0 < ms) (sleeps log).
Proof.
  intros Hframe Hrun.
  assert (Hseg : item_segment (maxRetries (self s)) (waitMillis (self s)) p log).
  { revert Hrun. unfold Node_internalExec, mbind, Eff_bind.
    destruct (for_retries _ _ s) as [[r1 s1] l1] eqn:Hloop.
    pose proof (for_retries_inv _ p (exec p) _ (Node_attempt_spec exec p) _ _ _ _ _ Hloop)
      as (Hfb & _ & _).
    apply (for_retries_bounds _ p (exec p) _ (Node_attempt_spec exec p) Hframe)
      in Hloop as (_ & Hall & Hc & Hlen & Hinr).
    destruct r1 as [[v|stored]|t|]; cbn.
    - intros [= <- <- <-]. apply item_segment_intro; auto.
    - specialize (Hinr stored eq_refl).
      unfold try_catch, call_method, throw. destruct stored as [e|]; cbn.
      + destruct (execFallback p e s1) as [[v|[fe|y]|] s2];
          cbn; intros [= <- <- <-]; rewrite ?app_nil_r;
          apply item_segment_intro; eauto.
      + intros [= <- <- <-]. apply item_segment_intro; auto.
    - intros [= <- <- <-]. rewrite <- (app_nil_r l1). apply item_segment_intro; auto.
    - intros [= <- <- <-]. rewrite <- (app_nil_r l1). apply item_segment_intro; auto. }
  destruct Hseg as (Hall & Hc & Hf & Hlast & Hs).
  split; [exact Hc|]. split; [exact Hf|]. split; [|split; [exact Hs|]].
  - intros Hne. destruct (Hlast Hne) as (before & e & -> & Hfb & Hcb).
    split; [|by exists before, e].
    rewrite count_exec_app, Hcb. cbn. lia.
  - by eapply made_for_sleeps.
Qed.

Section BatchNodeBounds.
Context {U IN_ITEM OUT_ITEM : Type}.
Variable execItem : IN_ITEM → method U OUT_ITEM.
Variable execItemFallback : IN_ITEM → std_exception → method U OUT_ITEM.
Hypothesis frame_execItem : ∀ x, keeps_fields (execItem x).
Hypothesis frame_execItemFallback : ∀ x e, keeps_fields (execItemFallback x e).

Lemma BatchNode_item_bounds fuel x s r s' l :
  BatchNode_item execItem execItemFallback fuel x s = (r, s', l) →
  same_config (self s) (self s')
  ∧ item_segment (maxRetries (self s)) (waitMillis (self s)) x l.
Proof.
  unfold BatchNode_item, mbind, Eff_bind.
  destruct (for_retries _ _ s) as [[r1 s1] l1] eqn:Hloop.
  pose proof (for_retries_inv _ x (execItem x) _ (BatchNode_attempt_spec execItem x)
                _ _ _ _ _ Hloop) as (Hfb & _ & _).
  apply (for_retries_bounds _ x (execItem x) _ (BatchNode_attempt_spec execItem x)
           (frame_execItem x)) in Hloop as (Hcfg & Hall & Hc & Hlen & Hinr).
  destruct r1 as [[v|stored]|t|]; cbn.
  - intros [= <- <- <-]. split; [done|]. apply item_segment_intro; auto.
  - specialize (Hinr stored eq_refl).
    unfold try_catch, call_method, throw. destruct stored as [e|]; cbn.
    + pose proof (frame_execItemFallback x e s1) as Hkeep.
      destruct (execItemFallback x e s1) as [[v|[fe|y]|] s2];
        cbn; intros [= <- <- <-]; rewrite ?app_nil_r; cbn in Hkeep;
        (split; [by rewrite Hkeep|]); apply item_segment_intro; eauto.
    + intros [= <- <- <-]. split; [done|]. apply item_segment_intro; auto.
  - intros [= <- <- <-]. split; [done|].
    rewrite <- (app_nil_r l1). apply item_segment_intro; auto.
  - intros [= <- <- <-]. split; [done|].
    rewrite <- (app_nil_r l1). apply item_segment_intro; auto.
Qed.

Lemma BatchNode_items_bounds fuel items :
  ∀ acc s r s' l,
    BatchNode_items execItem execItemFallback fuel items acc s = (r, s', l) →
    same_config (self s) (self s')
    ∧ ∃ segs,
        l = concat segs
        ∧ (length segs ≤ length items)%nat
        ∧ Forall2 (item_segment (maxRetries (self s)) (waitMillis (self s)))
                  (take (length segs) items) segs
        ∧ (∀ outs, r = Ok outs → length segs = length items).
Proof.
  induction items as [|x items IH]; intros acc s r s' l Hrun.
  - injection Hrun as <- <- <-. split; [done|]. exists []. cbn.
    repeat split; try done; constructor.
  - cbn [BatchNode_items] in Hrun. unfold mbind, Eff_bind in Hrun.
    destruct (BatchNode_item _ _ fuel x s) as [[r1 s1] l1] eqn:Hitem.
    apply BatchNode_item_bounds in Hitem as ([Hm Hw] & Hseg).
    destruct r1 as [out|t|].
    + destruct (BatchNode_items _ _ fuel items _ s1) as [[r2 s2] l2] eqn:Hrest.
      apply IH in Hrest as ([Hm2 Hw2] & segs & -> & Hlen & Hsegs & Hall).
      rewrite Hm, Hw in *.
      injection Hrun as <- <- <-. split; [done|].
      exists (l1 :: segs). cbn [concat length take].
      split; [done|]. split; [lia|]. split; [by constructor|].
      intros outs Hr. by rewrite (Hall outs Hr).
    + injection Hrun as <- <- <-. split; [done|]. exists [l1]. cbn.
      rewrite app_nil_r. split; [done|]. split; [lia|].
      split; [constructor; [done|rewrite take_0; constructor]|discriminate].
    + injection Hrun as <- <- <-. split; [done|]. exists [l1]. cbn.
      rewrite app_nil_r. split; [done|]. split; [lia|].
      split; [constructor; [done|rewrite take_0; constructor]|discriminate].
Qed.

End BatchNodeBounds.

(** X10. In every run of [BatchNode::internalExec] whose [execItem] and
    item fallback leave the [Node] fields as they are, the record of
    calls splits into one part per processed item, in input order: the
    part of an item holds only calls made for that item, at most
    [maxRetries] calls of [execItem], at most one call of the item
    fallback (then the last call of the part, after exactly [maxRetries]
    calls of [execItem]), and at most [maxRetries - 1] calls of
    [sleep_for], each with [waitMillis > 0].  When a sequence is
    returned, every item has its part. *)
Theorem BatchNode_internalExec_call_bounds {U IN_ITEM OUT_ITEM : Type}
    (execItem : IN_ITEM → method U OUT_ITEM)
    (execItemFallback : IN_ITEM → std_exception → method U OUT_ITEM)
    fuel items (s : machine U) r s' log :
  (∀ x, keeps_fields (execItem x)) →
  (∀ x e, keeps_fields (execItemFallback x e)) →
  BatchNode_internalExec execItem execItemFallback fuel items s = (r, s', log) →
  ∃ segs,
    log = concat segs
    ∧ (length segs ≤ length items)%nat
    ∧ Forall2 (item_segment (maxRetries (self s)) (waitMillis (self s)))
              (take (length segs) items) segs
    ∧ (∀ outs, r = Ok outs → length segs = length items).
Proof.
  intros Hframe Hframe_fb Hrun. rewrite BatchNode_internalExec_items in Hrun.
  by apply (BatchNode_items_bounds _ _ Hframe Hframe_fb) in Hrun as [_ Hsegs].
Qed.

(** ** User code that assigns the [Node] fields

    [maxRetries], [waitMillis] and [currentRetry] are protected members:
    an [exec] of a subclass can assign them, and the loop reads them
    again at every test.  The counts above are those of an [exec] that
    leaves them alone; these are the two ways out of them. *)


Lemma for_retries_from_never_exits {U Arg A : Type}
    (placeholder : string) (a : Arg) (f : method U A)
    (body : Eff (call Arg) (machine U) (A + std_exception)) :
  attempt_of placeholder a f body →
  (∀ s, currentRetry (self s) < maxRetries (self s) →
        ∃ t s1, f s = (Throw t, s1)
                ∧ currentRetry (self s1) + 1 < maxRetries (self s1)) →
  ∀ fuel stored s,
    currentRetry (self s) < maxRetries (self s) →
    ∃ s' log,
      for_retries_from fuel body stored s = (Diverge, s', log)
      ∧ count_exec log = fuel
      ∧ fallbacks log = [].
Proof.
  intros body_spec Hback. induction fuel as [|fuel IH]; intros stored s Hlt.
  - rewrite for_retries_from_out_of_fuel by done. by eexists _, _.
  - rewrite (for_retries_from_step _ _ _ _ body_spec) by done.
    destruct (Hback s Hlt) as (t & s1 & -> & Hlt1).
    destruct (IH (Some (runtime_error (message_of placeholder t)))
                 (increment_currentRetry s1)) as (s' & log & -> & Hc & Hf);
      [cbn; lia|].
    eexists _, _. split; [reflexivity|].
    change (Exec a :: pause (self s1) ++ log)
      with ([Exec a] ++ pause (self s1) ++ log).
    rewrite !count_exec_app, !fallbacks_app, count_exec_pause, fallbacks_pause, Hc, Hf.
    done.
Qed.

(** X21. An [exec] that throws and each time leaves [currentRetry]
    below [maxRetries - 1] is retried for ever: [Node::internalExec]
    does not return and does not reach the fallback; every bound on the
    number of iterations is used up by as many calls of [exec]. *)
Theorem exec_lowering_currentRetry_never_returns {U P E : Type}
    (exec : P → method U E) (execFallback : P → std_exception → method U E)
    p fuel (s : machine U) :
  (∀ s0, currentRetry (self s0) < maxRetries (self s0) →
         ∃ t s1, exec p s0 = (Throw t, s1)
                 ∧ currentRetry (self s1) + 1 < maxRetries (self s1)) →
  1 ≤ maxRetries (self s) →
  ∃ s' log,
    Node_internalExec exec execFallback fuel p s = (Diverge, s', log)
    ∧ count_exec log = fuel
    ∧ fallbacks log = [].
Proof.
  intros Hback HR.
  unfold Node_internalExec, for_retries, mbind, Eff_bind, modify_state.
  destruct (for_retries_from_never_exits _ p (exec p) _ (Node_attempt_spec exec p)
              Hback fuel None (reset_currentRetry s))
    as (s' & log & -> & Hc & Hf); [cbn; lia|].
  by eexists _, _.
Qed.


Lemma exec_lowering_currentRetry_never_returns_witness :
  ∃ s' log,
    Node_internalExec exec_steps_back execFallback_minus_one 5 7
                      (mkMachine (mkNode 1 0 0) 0%nat)
    = (Diverge, s', log)
    ∧ count_exec log = 5%nat
    ∧ fallbacks log = [].
Proof.
  apply (exec_lowering_currentRetry_never_returns exec_steps_back
           execFallback_minus_one 7 5 (mkMachine (mkNode 1 0 0) 0%nat)).
  - intros s0 Hlt. eexists _, _. split; [reflexivity|]. cbn. lia.
  - cbn. lia.
Defined.

(** ** BatchNode: items that succeed, items rescued by the fallback *)

Section BatchNodeMore.
Context {U IN_ITEM OUT_ITEM : Type}.
Variable execItem : IN_ITEM → method U OUT_ITEM.
Variable execItemFallback : IN_ITEM → std_exception → method U OUT_ITEM.

Lemma BatchNode_item_first_try fuel x s v s2 :
  1 ≤ maxRetries (self s) →
  execItem x (reset_currentRetry s) = (Ok v, s2) →
  BatchNode_item execItem execItemFallback (S fuel) x s = (Ok v, s2, [Exec x]).
Proof.
  intros HR Hok.
  unfold BatchNode_item, for_retries, mbind, Eff_bind, modify_state.
  rewrite (for_retries_from_step _ _ _ _ (BatchNode_attempt_spec execItem x))
    by (cbn; lia).
  by rewrite Hok.
Qed.

Lemma BatchNode_items_map (g : IN_ITEM → OUT_ITEM) fuel items :
  (∀ x s, execItem x s = (Ok (g x), s)) →
  ∀ acc s,
    1 ≤ maxRetries (self s) →
    ∃ s',
      BatchNode_items execItem execItemFallback (S fuel) items acc s
      = (Ok (acc ++ (g <$> items)), s', Exec <$> items)
      ∧ user s' = user s
      ∧ same_config (self s) (self s').
Proof.
  intros Hpure. induction items as [|x items IH]; intros acc s HR.
  - exists s. cbn. by rewrite app_nil_r.
  - destruct (IH (acc ++ [g x]) (reset_currentRetry s) HR)
      as (s' & Hrest & Huser & Hcfg).
    exists s'. cbn [BatchNode_items]. unfold mbind, Eff_bind.
    rewrite (BatchNode_item_first_try fuel x s (g x) _ HR (Hpure _ _)), Hrest.
    cbn. by rewrite <- app_assoc.
Qed.

(** X11. With an [execItem] that computes a function [g] of the item,
    changes nothing and never throws, [BatchNode::internalExec] returns
    [g] mapped over the input; it calls [execItem] once per item, in input
    order, and makes no other call. *)
Theorem BatchNode_maps_pure_execItem (g : IN_ITEM → OUT_ITEM) fuel items
    (s : machine U) :
  1 ≤ maxRetries (self s) →
  (1 ≤ fuel)%nat →
  (∀ x s0, execItem x s0 = (Ok (g x), s0)) →
  ∃ s',
    BatchNode_internalExec execItem execItemFallback fuel items s
    = (Ok (g <$> items), s', Exec <$> items)
    ∧ user s' = user s
    ∧ same_config (self s) (self s').
Proof.
  intros HR Hfuel Hpure. destruct fuel as [|fuel]; [lia|].
  rewrite BatchNode_internalExec_items.
  destruct (BatchNode_items_map g fuel items Hpure [] s HR) as (s' & -> & Hrest).
  by exists s'.
Qed.

(** X12. An item on which all [R] attempts throw but whose fallback
    returns [v] does not end the batch: [v] takes the item's place in the
    output and the items after it are processed next, from the state the
    fallback left.  ([execItem] and the item fallback leave the [Node]
    fields as they are.) *)
Theorem BatchNode_fallback_value_continues_batch
    (R w : Z) this u fuel pre x rest outs s1 l1 ts t s2 v s3 :
  Node_new R w = Ok this →
  (∀ x', keeps_fields (execItem x')) →
  (∀ x' e, keeps_fields (execItemFallback x' e)) →
  (Z.to_nat R ≤ fuel)%nat →
  BatchNode_internalExec execItem execItemFallback fuel pre (mkMachine this u)
  = (Ok outs, s1, l1) →
  failed_attempts (execItem x) (reset_currentRetry s1) (ts ++ [t]) s2 →
  length (ts ++ [t]) = Z.to_nat R →
  execItemFallback x
    (runtime_error (message_of "Non-standard exception during execItem" t))
    s2 = (Ok v, s3) →
  ∃ item_log,
    BatchNode_internalExec execItem execItemFallback fuel (pre ++ x :: rest)
                           (mkMachine this u)
    = (let '(r, s4, l3) :=
         BatchNode_items execItem execItemFallback fuel rest (outs ++ [v]) s3 in
       (r, s4, l1 ++ item_log ++ l3))
    ∧ self s3 = set_currentRetry R this
    ∧ count_exec item_log = Z.to_nat R
    ∧ fallbacks item_log
      = [(x, runtime_error (message_of "Non-standard exception during execItem" t))].
Proof.
  intros Hnew Hframe Hframe_fb Hfuel Hpre Hfail Hlen Hfallback.
  apply Node_new_Ok in Hnew as (-> & HR & Hw).
  rewrite !BatchNode_internalExec_items in *.
  pose proof (BatchNode_items_bounds _ _ Hframe Hframe_fb _ _ _ _ _ _ _ Hpre)
    as ([Hm Hwait] & _).
  cbn in Hm, Hwait.
  destruct (BatchNode_item_all_fail execItem execItemFallback R w fuel x s1 _ t s2
              (Hframe x) Hm Hwait Hfail Hlen (last_snoc _ _) Hfuel) as [Hitem Hs2].
  rewrite Hfallback in Hitem. cbn [fst snd escalate] in Hitem.
  pose proof (Hframe_fb x
                (runtime_error (message_of "Non-standard exception during execItem" t))
                s2) as Hkeep.
  rewrite Hfallback in Hkeep. cbn [snd] in Hkeep.
  eexists. split; [|split].
  - rewrite (BatchNode_items_app _ _ _ _ _ _ _ _ _ _ Hpre).
    cbn [BatchNode_items]. unfold mbind, Eff_bind. rewrite Hitem.
    destruct (BatchNode_items _ _ fuel rest _ _) as [[r s4] l3]. reflexivity.
  - by rewrite Hkeep, Hs2.
  - rewrite count_exec_app, fallbacks_app, failed_log_count, failed_log_fallbacks.
    cbn. split; [lia|done].
Qed.

(** X13. [BaseNode::internalRun] moves the prepared input into
    [internalExec] before it calls [post]: on a [BatchNode], whatever
    sequence [prep] produced, [post] is called with the empty sequence
    (and with the outputs). *)
Theorem BatchNode_post_gets_empty_input
    (prep : method U (list IN_ITEM))
    (post : list IN_ITEM → list OUT_ITEM → method U (option string))
    fuel (s : machine U) items s1 outs s2 l :
  prep s = (Ok items, s1) →
  BatchNode_internalExec execItem execItemFallback fuel items s1
  = (Ok outs, s2, l) →
  BatchNode_internalRun prep execItem execItemFallback post fuel s
  = ((post [] outs s2).1, (post [] outs s2).2, l).
Proof.
  intros Hprep Hexec.
  unfold BatchNode_internalRun, BaseNode_internalRun, mbind, Eff_bind, run_method.
  rewrite Hprep. cbn. rewrite Hexec.
  destruct (post [] outs s2) as [r s3]. cbn.
  by rewrite app_nil_r.
Qed.

End BatchNodeMore.

(** ** Node: failures outside [exec] *)

(** X14. The retry engine covers [exec] only.  An exception of [prep]
    leaves [internalRun] as it is, with [exec], the fallback and [post]
    not called; an exception of [post] leaves it as it is too, after the
    calls [internalExec] made. *)
Theorem prep_and_post_failures_are_not_retried {U P E : Type}
    (moved_from : P → P) (prep : method U P) (exec : P → method U E)
    (execFallback : P → std_exception → method U E)
    (post : P → E → method U (option string))
    fuel (s : machine U) t s1 p s2 e s3 l t' s4 :
  (prep s = (Throw t, s1) →
   Node_internalRun moved_from prep exec execFallback post fuel s
   = (Throw t, s1, []))
  ∧ (prep s = (Ok p, s2) →
     Node_internalExec exec execFallback fuel p s2 = (Ok e, s3, l) →
     post (moved_from p) e s3 = (Throw t', s4) →
     Node_internalRun moved_from prep exec execFallback post fuel s
     = (Throw t', s4, l)).
Proof.
  unfold Node_internalRun, BaseNode_internalRun, mbind, Eff_bind, run_method.
  split.
  - intros ->. reflexivity.
  - intros -> Hexec Hpost. cbn. rewrite Hexec, Hpost. cbn. by rewrite app_nil_r.
Qed.

(** ** Params and successors of one node *)

(** X15. [getParamOrDefault] after [setParams]: a key set to a value of
    the requested type gives that value back; a key set to a value of
    another type, or not set at all, gives the default, without an
    exception; setting one key does not change what another key gives. *)
Theorem getParamOrDefault_after_setParams
    (ps : Params) (key other : string) (value defaultValue : Z) (text : string)
    (this : BaseNode) :
  key ≠ other →
  getParamOrDefault key defaultValue (setParams (<[key := to_any value]> ps) this)
  = value
  ∧ getParamOrDefault key defaultValue (setParams (<[key := to_any text]> ps) this)
    = defaultValue
  ∧ getParamOrDefault key defaultValue (setParams (delete key ps) this)
    = defaultValue
  ∧ getParamOrDefault other defaultValue (setParams (<[key := to_any value]> ps) this)
    = getParamOrDefault other defaultValue (setParams ps this)
  ∧ successors (setParams ps this) = successors this.
Proof.
  intros Hne. unfold getParamOrDefault, setParams. cbn.
  rewrite !lookup_insert_eq, lookup_delete_eq, lookup_insert_ne by done. done.
Qed.


(** ** Examples for the further properties *)

Lemma orchestrate_runs_the_successor_chain_witness :
  ∃ w' l,
    Flow_orchestrate chain_run 2 flow_plain ∅ world_chain = (Ok None, w', l)
    ∧ nodes_run l = [start_ref; second_ref].
Proof.
  pose (w1 := pushed start_ref ∅ world_chain).
  pose (w2 := pushed second_ref ∅ w1).
  destruct (orchestrate_runs_the_successor_chain chain_run 2 flow_plain ∅
              start_ref world_chain [start_ref; second_ref] (Ok None) w2)
    as (l & Hrun & Hl).
  - reflexivity.
  - eapply (walk_next _ _ _ _ (Some "go") w1 second_ref);
      [reflexivity|reflexivity|].
    apply walk_end; reflexivity.
  - cbn. lia.
  - exists w2, l. split; [exact Hrun|exact Hl].
Defined.

Lemma orchestrate_result_is_end_of_chain_witness :
  ∃ w',
    walk chain_then_throw ∅ start_ref world_chain [start_ref; second_ref]
         (Throw (StdException (runtime_error "boom"))) w'.
Proof.
  pose (run := Flow_orchestrate chain_then_throw 5 flow_plain ∅ world_chain).
  exists run.1.2.
  assert (Hend : Throw (StdException (runtime_error "boom")) ≠ @Diverge (option string))
    by discriminate.
  exact (orchestrate_result_is_end_of_chain chain_then_throw 5 flow_plain ∅
           world_chain (Throw (StdException (runtime_error "boom"))) run.1.2 run.2
           eq_refl Hend).
Defined.

Lemma orchestrate_self_loop_never_returns_witness :
  (Flow_orchestrate quiet_node 1000 flow_plain ∅ world_loop).1.1 = Diverge.
Proof.
  apply (orchestrate_self_loop_never_returns quiet_node 1000 flow_plain ∅
           start_ref world_loop).
  - reflexivity.
  - intros w0. reflexivity.
  - reflexivity.
Defined.


Lemma BatchFlow_stops_at_throwing_sub_run_witness :
  ∃ w3 l,
    BatchFlow_internalRun chain_then_throw prepBatch_two postBatch_count 3
                          flow_plain world_chain
    = (Throw (StdException (runtime_error "boom")), w3, l)
    ∧ outline l = [PrepBatch; Orchestrate {[ "k" := AnyInt 2 ]}].
Proof.
  pose (run := Flow_orchestrate chain_then_throw 3 flow_plain
                 {[ "k" := AnyInt 2 ]} world_chain).
  destruct (BatchFlow_stops_at_throwing_sub_run chain_then_throw prepBatch_two
              postBatch_count 3 flow_plain world_chain
              [] {[ "k" := AnyInt 2 ]} [ {[ "j" := AnyInt 3 ]} ]
              world_chain world_chain (StdException (runtime_error "boom"))
              run.1.2 run.2)
    as (l & Hrun & Hout).
  - reflexivity.
  - apply sub_runs_nil.
  - reflexivity.
  - exists run.1.2, l. split; [exact Hrun|exact Hout].
Defined.


Lemma execItemFallback_zero_keeps_fields x e :
  keeps_fields (execItemFallback_zero x e).
Proof. by intros s. Qed.

Lemma fallback_outcome_reaches_caller_witness :
  ∃ log,
    Node_internalExec (exec_flaky 9) execFallback_minus_one 2 7
                      (mkMachine (mkNode 2 0 0) 0%nat)
    = (Ok (-1), mkMachine (mkNode 2 0 2) 2%nat, log).
Proof.
  destruct (fallback_outcome_reaches_caller (exec_flaky 9) execFallback_minus_one
              2 0 (mkNode 2 0 0) 7 0%nat
              [StdException (Timeout 0)] (StdException (Timeout 1))
              (mkMachine (mkNode 2 0 2) 2%nat) 2%nat)
    as (_ & r & s' & log & Hrun & Hstate & Hres).
  - reflexivity.
  - apply exec_flaky_keeps_fields.
  - repeat (eapply failed_attempts_cons; [reflexivity|]). apply failed_attempts_nil.
  - reflexivity.
  - cbn. lia.
  - cbn in Hres, Hstate. subst r s'. exists log. exact Hrun.
Defined.

Lemma default_fallbacks_wrap_last_failure_witness :
  (∃ log,
     Node_internalExec (exec_flaky 9) Node_execFallback_default 2 7
                       (mkMachine (mkNode 2 0 0) 0%nat)
     = (Throw (StdException (mk_exception NeuralFlowException_class
          "Fallback execution failed after main exec retries failed. (Caused by: Node execution failed after 2 retries, and fallback was not implemented or also failed. (Caused by: timed out))"
          [])),
        mkMachine (mkNode 2 0 2) 2%nat, log))
  ∧ (∃ log,
       BatchNode_item execItem_even BatchNode_execItemFallback_default 2 3
                      (mkMachine (mkNode 2 0 0) 0%nat)
       = (Throw (StdException (mk_exception NeuralFlowException_class
            "Item fallback execution failed. (Caused by: Batch item execution failed after retries, and fallback was not implemented or also failed. (Caused by: Non-standard exception during execItem))"
            [])),
          mkMachine (mkNode 2 0 2) 2%nat, log)).
Proof.
  destruct (default_fallbacks_wrap_last_failure (E := Z) (exec_flaky 9) execItem_even
              2 0 (mkNode 2 0 0) 7 3
              0%nat [StdException (Timeout 0)] (StdException (Timeout 1))
              (mkMachine (mkNode 2 0 2) 2%nat)
              0%nat [NonStandard (AnyInt 3)] (NonStandard (AnyInt 3))
              (mkMachine (mkNode 2 0 2) 2%nat) 2%nat)
    as [[_ Hnode] [_ Hitem]].
  - reflexivity.
  - apply exec_flaky_keeps_fields.
  - apply execItem_even_keeps_fields.
  - cbn. lia.
  - repeat (eapply failed_attempts_cons; [reflexivity|]). apply failed_attempts_nil.
  - reflexivity.
  - repeat (eapply failed_attempts_cons; [reflexivity|]). apply failed_attempts_nil.
  - reflexivity.
  - split; [exact Hnode|exact Hitem].
Defined.

Lemma Node_internalExec_call_bounds_witness :
  let log := (Node_internalExec (exec_flaky 9) execFallback_minus_one 5 7
                                (mkMachine (mkNode 3 50 0) 0%nat)).2 in
  (count_exec log ≤ 3)%nat
  ∧ (length (fallbacks log) ≤ 1)%nat
  ∧ (fallbacks log ≠ [] →
       count_exec log = 3%nat
       ∧ ∃ before e, log = before ++ [Fallback 7 e]
                     ∧ fallbacks before = []
                     ∧ count_exec before = 3%nat)
  ∧ (length (sleeps log) ≤ 2)%nat
  ∧ Forall (λ ms, ms = 50 ∧ 0 < ms) (sleeps log).
Proof.
  pose (run := Node_internalExec (exec_flaky 9) execFallback_minus_one 5 7
                                 (mkMachine (mkNode 3 50 0) 0%nat)).
  apply (Node_internalExec_call_bounds (exec_flaky 9) execFallback_minus_one 5 7
           (mkMachine (mkNode 3 50 0) 0%nat) run.1.1 run.1.2 run.2).
  - apply exec_flaky_keeps_fields.
  - reflexivity.
Defined.

Lemma BatchNode_internalExec_call_bounds_witness :
  let run := BatchNode_internalExec execItem_even execItemFallback_zero 2 [2; 3; 4]
                                    (mkMachine (mkNode 2 50 0) 0%nat) in
  ∃ segs,
    run.2 = concat segs
    ∧ (length segs ≤ 3)%nat
    ∧ Forall2 (item_segment 2 50) (take (length segs) [2; 3; 4]) segs
    ∧ (∀ outs, run.1.1 = Ok outs → length segs = 3%nat).
Proof.
  intros run.
  apply (BatchNode_internalExec_call_bounds execItem_even execItemFallback_zero
           2 [2; 3; 4] (mkMachine (mkNode 2 50 0) 0%nat) run.1.1 run.1.2 run.2).
  - apply execItem_even_keeps_fields.
  - apply execItemFallback_zero_keeps_fields.
  - reflexivity.
Defined.

Lemma BatchNode_maps_pure_execItem_witness :
  ∃ s',
    BatchNode_internalExec execItem_double execItemFallback_zero 1 [1; 2; 3]
                           (mkMachine (mkNode 1 0 0) 0%nat)
    = (Ok [2; 4; 6], s', [Exec 1; Exec 2; Exec 3]).
Proof.
  destruct (BatchNode_maps_pure_execItem execItem_double execItemFallback_zero
              (λ item, 2 * item) 1 [1; 2; 3] (mkMachine (mkNode 1 0 0) 0%nat))
    as (s' & Hrun & _).
  - cbn. lia.
  - lia.
  - intros x s0. reflexivity.
  - exists s'. exact Hrun.
Defined.

Lemma BatchNode_fallback_value_continues_batch_witness :
  ∃ s4 log,
    BatchNode_internalExec execItem_even execItemFallback_zero 2 [2; 3; 4]
                           (mkMachine (mkNode 2 0 0) 0%nat)
    = (Ok [20; 0; 40], s4, log).
Proof.
  destruct (BatchNode_fallback_value_continues_batch execItem_even execItemFallback_zero
              2 0 (mkNode 2 0 0) 0%nat 2%nat [2] 3 [4] [20]
              (mkMachine (mkNode 2 0 0) 1%nat) [Exec 2]
              [NonStandard (AnyInt 3)] (NonStandard (AnyInt 3))
              (mkMachine (mkNode 2 0 2) 3%nat) 0 (mkMachine (mkNode 2 0 2) 3%nat))
    as (item_log & Hrun & _).
  - reflexivity.
  - apply execItem_even_keeps_fields.
  - apply execItemFallback_zero_keeps_fields.
  - cbn. lia.
  - reflexivity.
  - repeat (eapply failed_attempts_cons; [reflexivity|]). apply failed_attempts_nil.
  - reflexivity.
  - reflexivity.
  - eexists _, _. refine (eq_trans Hrun _). reflexivity.
Defined.

Lemma BatchNode_post_gets_empty_input_witness :
  ∃ s' l,
    BatchNode_internalRun prep_three_items execItem_double execItemFallback_zero
                          post_input_size 1 (mkMachine (mkNode 1 0 0) 0%nat)
    = (Ok (Some "0"), s', l)
    ∧ l = [Exec 1; Exec 2; Exec 3].
Proof.
  pose (run := BatchNode_internalExec execItem_double execItemFallback_zero 1 [1; 2; 3]
                                      (mkMachine (mkNode 1 0 0) 0%nat)).
  eexists _, _. split.
  - apply (BatchNode_post_gets_empty_input execItem_double execItemFallback_zero
             prep_three_items post_input_size 1 (mkMachine (mkNode 1 0 0) 0%nat)
             [1; 2; 3] (mkMachine (mkNode 1 0 0) 0%nat) [2; 4; 6] run.1.2
             [Exec 1; Exec 2; Exec 3]);
      reflexivity.
  - reflexivity.
Defined.

Lemma prep_and_post_failures_are_not_retried_witness :
  Node_internalRun id prep_missing_entry (exec_flaky 0) execFallback_minus_one
                   post_rejects 3 (mkMachine (mkNode 3 0 0) 0%nat)
  = (Throw (StdException (NeuralFlowException "missing entry")),
     mkMachine (mkNode 3 0 0) 0%nat, [])
  ∧ Node_internalRun id prep_seven (exec_flaky 0) execFallback_minus_one
                     post_rejects 3 (mkMachine (mkNode 3 0 0) 0%nat)
    = (Throw (NonStandard (AnyInt 14)), mkMachine (mkNode 3 0 0) 1%nat, [Exec 7]).
Proof.
  split.
  - apply (proj1 (prep_and_post_failures_are_not_retried id prep_missing_entry
                    (exec_flaky 0) execFallback_minus_one post_rejects 3
                    (mkMachine (mkNode 3 0 0) 0%nat)
                    (StdException (NeuralFlowException "missing entry"))
                    (mkMachine (mkNode 3 0 0) 0%nat)
                    7 (mkMachine (mkNode 3 0 0) 0%nat) 14
                    (mkMachine (mkNode 3 0 0) 1%nat) [Exec 7]
                    (NonStandard (AnyInt 14)) (mkMachine (mkNode 3 0 0) 1%nat))).
    reflexivity.
  - apply (proj2 (prep_and_post_failures_are_not_retried id prep_seven
                    (exec_flaky 0) execFallback_minus_one post_rejects 3
                    (mkMachine (mkNode 3 0 0) 0%nat)
                    (StdException (NeuralFlowException "missing entry"))
                    (mkMachine (mkNode 3 0 0) 0%nat)
                    7 (mkMachine (mkNode 3 0 0) 0%nat) 14
                    (mkMachine (mkNode 3 0 0) 1%nat) [Exec 7]
                    (NonStandard (AnyInt 14)) (mkMachine (mkNode 3 0 0) 1%nat)));
      reflexivity.
Defined.

Lemma getParamOrDefault_after_setParams_witness :
  "multiplier" ≠ "offset"
  ∧ getParamOrDefault "multiplier" 1
      (setParams (<["multiplier" := AnyInt 3]> ∅) (mkBaseNode ∅ ∅)) = 3
  ∧ getParamOrDefault "multiplier" 1
      (setParams (<["multiplier" := AnyString "three"]> ∅) (mkBaseNode ∅ ∅)) = 1.
Proof.
  split; [discriminate|].
  destruct (getParamOrDefault_after_setParams ∅ "multiplier" "offset" 3 1 "three"
              (mkBaseNode ∅ ∅)) as (Hvalue & Htext & _); [discriminate|].
  split; [exact Hvalue|exact Htext].
Defined.

(** ** The demonstration program *)

Lemma Node_internalRun_first_try {U P E : Type}
    (moved_from : P → P) (prep : method U P) (exec : P → method U E)
    (execFallback : P → std_exception → method U E)
    (post : P → E → method U (option string))
    fuel s p s1 e s2 :
  prep s = (Ok p, s1) →
  1 ≤ maxRetries (self s1) →
  exec p (reset_currentRetry s1) = (Ok e, s2) →
  Node_internalRun moved_from prep exec execFallback post (S fuel) s
  = ((post (moved_from p) e s2).1, (post (moved_from p) e s2).2, [Exec p]).
Proof.
  intros Hprep HR Hexec.
  unfold Node_internalRun, BaseNode_internalRun, mbind, Eff_bind, run_method.
  rewrite Hprep.
  unfold Node_internalExec, for_retries, mbind, Eff_bind, modify_state.
  rewrite (for_retries_from_step _ _ _ _ (Node_attempt_spec exec p)) by (cbn; lia).
  rewrite Hexec. cbn.
  by destruct (post (moved_from p) e s2).
Qed.

Lemma node_object_first_try {P E : Type}
    (moved_from : P → P) (n : node_ref) (prep : method (world members) P)
    (exec : P → method (world members) E)
    (post : P → E → method (world members) (option string))
    w p w1 e w2 r w3 :
  node_fields (outside w) n = mkNode 1 0 0 →
  prep (mkMachine (mkNode 1 0 0) w) = (Ok p, mkMachine (mkNode 1 0 0) w1) →
  exec p (mkMachine (mkNode 1 0 0) w1) = (Ok e, mkMachine (mkNode 1 0 0) w2) →
  post (moved_from p) e (mkMachine (mkNode 1 0 0) w2)
  = (r, mkMachine (mkNode 1 0 0) w3) →
  node_object n (Node_internalRun moved_from prep exec Node_execFallback_default post 1) w
  = (r, {| sharedContext := sharedContext w3;
           nodes := nodes w3;
           outside := {| node_fields := <[n := mkNode 1 0 0]> (node_fields (outside w3));
                         capturedValue := capturedValue (outside w3) |} |}).
Proof.
  intros Hfields Hprep Hexec Hpost. unfold node_object. rewrite Hfields.
  rewrite (Node_internalRun_first_try moved_from prep exec _ post 0 _ p _ e _
             Hprep ltac:(cbn; lia) Hexec).
  by rewrite Hpost.
Qed.

Lemma SetNumberNode_runs class_of n number w :
  class_of n = SetNumberNode number →
  node_fields (outside w) n = mkNode 1 0 0 →
  demo_internalRun class_of n w
  = (Ok (if 20 <? number * getParamOrDefault "multiplier" 1 (nodes w n)
         then Some "over_20" else None),
     {| sharedContext :=
          <["currentValue" :=
              AnyInt (number * getParamOrDefault "multiplier" 1 (nodes w n))]>
            (sharedContext w);
        nodes := nodes w;
        outside := {| node_fields := <[n := mkNode 1 0 0]> (node_fields (outside w));
                      capturedValue := capturedValue (outside w) |} |}).
Proof.
  intros Hclass Hfields. unfold demo_internalRun. rewrite Hclass.
  erewrite node_object_first_try; cycle 1;
    [exact Hfields|reflexivity|reflexivity|reflexivity|].
  reflexivity.
Qed.

Lemma AddNumberNode_runs class_of n numberToAdd w currentValue :
  class_of n = AddNumberNode numberToAdd →
  node_fields (outside w) n = mkNode 1 0 0 →
  sharedContext w !! "currentValue" = Some (AnyInt currentValue) →
  demo_internalRun class_of n w
  = (Ok (Some "added"),
     {| sharedContext :=
          <["currentValue" := AnyInt (currentValue + numberToAdd)]> (sharedContext w);
        nodes := nodes w;
        outside := {| node_fields := <[n := mkNode 1 0 0]> (node_fields (outside w));
                      capturedValue := capturedValue (outside w) |} |}).
Proof.
  intros Hclass Hfields Hctx. unfold demo_internalRun. rewrite Hclass.
  erewrite node_object_first_try; cycle 1;
    [exact Hfields
    |unfold AddNumberNode_prep; cbn [user]; rewrite Hctx; reflexivity
    |reflexivity|reflexivity|].
  reflexivity.
Qed.

Lemma ResultCaptureNode_runs class_of n w currentValue :
  class_of n = ResultCaptureNode →
  node_fields (outside w) n = mkNode 1 0 0 →
  sharedContext w !! "currentValue" = Some (AnyInt currentValue) →
  demo_internalRun class_of n w
  = (Ok None,
     {| sharedContext := sharedContext w;
        nodes := <[n := {| params := <["capturedValue" := AnyInt currentValue]>
                                       (params (nodes w n));
                           successors := successors (nodes w n) |}]> (nodes w);
        outside := {| node_fields := <[n := mkNode 1 0 0]> (node_fields (outside w));
                      capturedValue := <[n := currentValue]> (capturedValue (outside w)) |}
     |}).
Proof.
  intros Hclass Hfields Hctx. unfold demo_internalRun. rewrite Hclass.
  erewrite node_object_first_try; cycle 1;
    [exact Hfields
    |unfold ResultCaptureNode_prep; cbn [user]; rewrite Hctx; reflexivity
    |reflexivity|reflexivity|].
  reflexivity.
Qed.

Lemma Flow_internalRun_walk {U : Type}
    (internalRun : node_ref → hook (world U) (option string))
    fuel this start w path outcome w' :
  startNode this = Some start →
  walk internalRun (params (base this)) start w path outcome w' →
  (length path ≤ fuel)%nat →
  ∃ l, Flow_internalRun internalRun Flow_prep_default fuel this w = (outcome, w', l)
       ∧ nodes_run l = path.
Proof.
  intros Hstart Hwalk Hfuel.
  unfold Flow_internalRun, Flow_prep_default, mbind, Eff_bind, Flow_orchestrate, Flow_post.
  rewrite Hstart, map_insert_range_union, (right_id_L ∅ (∪)).
  destruct (orchestrate_loop_walk _ _ _ _ _ _ _ Hwalk fuel None Hfuel) as (l & -> & Hl).
  destruct outcome as [action|t|]; eexists; (split; [reflexivity|]); cbn;
    rewrite ?app_nil_r; exact Hl.
Qed.

Section BranchingTest.
Variables number numberToAdd : Z.
Variable ps : Params.

Abbreviation multiplier := (flow_multiplier ps).
Abbreviation run := (branching_run number numberToAdd ps).
Abbreviation classes := (branching_classes number numberToAdd).

(** X17. The branching test of [main.cpp] when the value does not exceed
    20 (with [number = 10] and no multiplier this is also its linear
    test): [SetNumberNode] stores [number * multiplier] and returns no
    action, the default successor [AddNumberNode] adds [numberToAdd] and
    returns ["added"], and the capture node behind ["added"] records the
    sum in its member and in its params; the node behind ["over_20"] is
    not run and keeps [-999]; the flow returns no action. *)
Theorem branching_test_default_route :
  int_range (number * multiplier) →
  int_range (number * multiplier + numberToAdd) →
  number * multiplier ≤ 20 →
  ∃ w' l,
    run = (Ok None, w', l)
    ∧ nodes_run l = [setNum; addNum; captureDefault]
    ∧ sharedContext w' !! "currentValue"
      = Some (AnyInt (number * multiplier + numberToAdd))
    ∧ capturedValue (outside w') captureDefault = number * multiplier + numberToAdd
    ∧ params (nodes w' captureDefault) !! "capturedValue"
      = Some (AnyInt (number * multiplier + numberToAdd))
    ∧ capturedValue (outside w') captureOver20 = -999.
Proof.
  intros _ _ Hle.
  assert (∃ w',
    walk (demo_internalRun classes) ps setNum branching_world
         [setNum; addNum; captureDefault] (Ok None) w'
    ∧ sharedContext w' !! "currentValue"
      = Some (AnyInt (number * multiplier + numberToAdd))
    ∧ capturedValue (outside w') captureDefault = number * multiplier + numberToAdd
    ∧ params (nodes w' captureDefault) !! "capturedValue"
      = Some (AnyInt (number * multiplier + numberToAdd))
    ∧ capturedValue (outside w') captureOver20 = -999) as (w' & Hwalk & Hfacts).
  { eexists. split.
    - eapply walk_next.
      + rewrite (SetNumberNode_runs classes setNum number) by reflexivity.
        change (getParamOrDefault "multiplier" 1
                  (nodes (pushed setNum ps branching_world) setNum))
          with multiplier.
        rewrite (proj2 (Z.ltb_ge _ _) Hle). reflexivity.
      + reflexivity.
      + eapply walk_next.
        * rewrite (AddNumberNode_runs classes addNum numberToAdd _
                     (number * multiplier)) by reflexivity.
          reflexivity.
        * reflexivity.
        * eapply walk_end.
          -- rewrite (ResultCaptureNode_runs classes captureDefault _
                        (number * multiplier + numberToAdd)) by reflexivity.
             reflexivity.
          -- reflexivity.
    - cbn [sharedContext nodes outside capturedValue].
      split; [apply lookup_insert_eq|]. split; [apply fn_lookup_insert|].
      split; [|reflexivity].
      rewrite fn_lookup_insert. cbn [params]. apply lookup_insert_eq. }
  destruct (Flow_internalRun_walk (demo_internalRun classes) 3 (branching_flow ps)
              setNum branching_world _ _ _ eq_refl Hwalk) as (l & Hrun & Hl);
    [cbn; lia|].
  exists w', l. split; [exact Hrun|]. split; [exact Hl|exact Hfacts].
Qed.

(** X18. The branching test of [main.cpp] when the value exceeds 20:
    [SetNumberNode] stores [number * multiplier] and returns ["over_20"],
    which leads straight to the capture node behind that label; it
    records the value; [AddNumberNode] and the capture node behind
    ["added"] are not run, and that capture node keeps [-999]. *)
Theorem branching_test_over_20_route :
  int_range (number * multiplier) →
  20 < number * multiplier →
  ∃ w' l,
    run = (Ok None, w', l)
    ∧ nodes_run l = [setNum; captureOver20]
    ∧ sharedContext w' !! "currentValue" = Some (AnyInt (number * multiplier))
    ∧ capturedValue (outside w') captureOver20 = number * multiplier
    ∧ params (nodes w' captureOver20) !! "capturedValue"
      = Some (AnyInt (number * multiplier))
    ∧ capturedValue (outside w') captureDefault = -999.
Proof.
  intros _ Hgt.
  assert (∃ w',
    walk (demo_internalRun classes) ps setNum branching_world
         [setNum; captureOver20] (Ok None) w'
    ∧ sharedContext w' !! "currentValue" = Some (AnyInt (number * multiplier))
    ∧ capturedValue (outside w') captureOver20 = number * multiplier
    ∧ params (nodes w' captureOver20) !! "capturedValue"
      = Some (AnyInt (number * multiplier))
    ∧ capturedValue (outside w') captureDefault = -999) as (w' & Hwalk & Hfacts).
  { eexists. split.
    - eapply walk_next.
      + rewrite (SetNumberNode_runs classes setNum number) by reflexivity.
        change (getParamOrDefault "multiplier" 1
                  (nodes (pushed setNum ps branching_world) setNum))
          with multiplier.
        rewrite (proj2 (Z.ltb_lt _ _) Hgt). reflexivity.
      + reflexivity.
      + eapply walk_end.
        * rewrite (ResultCaptureNode_runs classes captureOver20 _
                     (number * multiplier)) by reflexivity.
          reflexivity.
        * reflexivity.
    - cbn [sharedContext nodes outside capturedValue].
      split; [apply lookup_insert_eq|]. split; [apply fn_lookup_insert|].
      split; [|reflexivity].
      rewrite fn_lookup_insert. cbn [params]. apply lookup_insert_eq. }
  destruct (Flow_internalRun_walk (demo_internalRun classes) 3 (branching_flow ps)
              setNum branching_world _ _ _ eq_refl Hwalk) as (l & Hrun & Hl);
    [cbn; lia|].
  exists w', l. split; [exact Hrun|]. split; [exact Hl|exact Hfacts].
Qed.

End BranchingTest.

Lemma branching_test_default_route_witness :
  ∃ w' l,
    branching_run 10 5 ∅ = (Ok None, w', l)
    ∧ nodes_run l = [setNum; addNum; captureDefault]
    ∧ sharedContext w' !! "currentValue" = Some (AnyInt 15)
    ∧ capturedValue (outside w') captureDefault = 15
    ∧ params (nodes w' captureDefault) !! "capturedValue" = Some (AnyInt 15)
    ∧ capturedValue (outside w') captureOver20 = -999.
Proof.
  pose proof (branching_test_default_route 10 5 ∅) as H.
  change (flow_multiplier ∅) with 1 in H.
  apply H; unfold int_range; lia.
Defined.

Lemma branching_test_over_20_route_witness :
  ∃ w' l,
    branching_run 10 5 {[ "multiplier" := AnyInt 3 ]} = (Ok None, w', l)
    ∧ nodes_run l = [setNum; captureOver20]
    ∧ sharedContext w' !! "currentValue" = Some (AnyInt 30)
    ∧ capturedValue (outside w') captureOver20 = 30
    ∧ params (nodes w' captureOver20) !! "capturedValue" = Some (AnyInt 30)
    ∧ capturedValue (outside w') captureDefault = -999.
Proof.
  pose proof (branching_test_over_20_route 10 5 {[ "multiplier" := AnyInt 3 ]}) as H.
  change (flow_multiplier {[ "multiplier" := AnyInt 3 ]}) with 3 in H.
  apply H; unfold int_range; lia.
Defined.

(** X19. The simple workflow of [main.cpp]: the start node returns the
    action ["started"], which leads to the end node; the end node returns
    no action and has no successor, so the flow ends there and returns no
    action.  What the end node stores under ["end_node_prep_result"] is
    the prepared string after it has been moved into [internalExec]. *)
Theorem simple_workflow_run (moved_string : string → string) :
  ∃ w' l,
    simple_run moved_string = (Ok None, w', l)
    ∧ nodes_run l = [startNode_ref; endNode_ref]
    ∧ sharedContext w'
      = {[ "end_node_prep_result" :=
             AnyString (moved_string "Preparing to end workflow") ]}.
Proof.
  assert (∃ w',
    walk (simple_internalRun moved_string) ∅ startNode_ref simple_world
         [startNode_ref; endNode_ref] (Ok None) w'
    ∧ sharedContext w'
      = {[ "end_node_prep_result" :=
             AnyString (moved_string "Preparing to end workflow") ]})
    as (w' & Hwalk & Hctx).
  { eexists. split.
    - eapply walk_next.
      + unfold simple_internalRun.
        rewrite decide_True by reflexivity.
        erewrite node_object_first_try; cycle 1;
          [reflexivity|reflexivity|reflexivity|reflexivity|].
        reflexivity.
      + reflexivity.
      + eapply walk_end.
        * unfold simple_internalRun.
          rewrite decide_False by discriminate.
          erewrite (node_object_first_try moved_string endNode_ref); cycle 1;
            [reflexivity|reflexivity|reflexivity|reflexivity|].
          reflexivity.
        * reflexivity.
    - reflexivity. }
  destruct (Flow_internalRun_walk (simple_internalRun moved_string) 2 simple_flow
              startNode_ref simple_world _ _ _ eq_refl Hwalk) as (l & Hrun & Hl);
    [cbn; lia|].
  exists w', l. split; [exact Hrun|]. split; [exact Hl|exact Hctx].
Qed.
